(** * jhsiao.ioutils: file-like io utilities

    A shallow embedding of the package's classes: [BytesReader]
    (bytereader.py), [DevNull] (devnull.py) and the pipe bridge [FDWrap]
    (fdwrap.py) together with the pieces of the Python runtime they touch
    (slices, attribute lookup, file objects, OS pipes). *)

From Stdlib Require Import ZArith Lia.
From Stdlib.Strings Require Import Byte Ascii String.
From stdpp Require Import gmap strings list.

Open Scope Z_scope.

(** ** Python values shared by the modules *)

(** The exceptions that the embedded code, or the runtime calls it makes,
    can raise. [InvalidModeError] belongs to the specification's taxonomy;
    no embedded function has a path that raises it. *)
Inductive pyexn :=
| TypeError
| AttributeError
| ValueError
| OSError
| BrokenPipeError
| NotImplementedError
| UnsupportedOperation
| InvalidModeError.

#[global] Instance pyexn_eq_dec : EqDecision pyexn.
Proof. solve_decision. Defined.

(** A call either returns a value or raises. *)
Inductive result (A : Type) :=
| Ok (a : A)
| Raise (e : pyexn).
Arguments Ok {A} a.
Arguments Raise {A} e.

Definition bytes := list byte.

(** [c in s] for a one-character [c] and a [str] [s]. *)
Fixpoint str_contains (c : ascii) (s : string) : bool :=
  match s with
  | EmptyString => false
  | String a rest => if Ascii.eqb a c then true else str_contains c rest
  end.

(** Python's slice index normalisation ([PySlice_AdjustIndices], step 1):
    a negative index counts from the end, then the index is clamped to
    [0, len]. *)
Definition adjust_index (len i : Z) : Z :=
  if i <? 0 then Z.max 0 (i + len) else Z.min i len.

(** [l[start:stop]]. *)
Definition py_slice {A} (l : list A) (start stop : Z) : list A :=
  let n := Z.of_nat (length l) in
  let a := adjust_index n start in
  let b := adjust_index n stop in
  take (Z.to_nat (b - a)) (drop (Z.to_nat a) l).

(** [l[start:]]. *)
Definition py_slice_from {A} (l : list A) (start : Z) : list A :=
  py_slice l start (Z.of_nat (length l)).

(** ** bytereader.py *)

Module BytesReader.

Definition SEEK_SET : Z := 0.
Definition SEEK_CUR : Z := 1.
Definition SEEK_END : Z := 2.

(** The instance: [data] is the memoryview over the wrapped bytes, [None]
    once [close] has dropped it; [closed] is the flag that
    [io.IOBase.close] sets. *)
Record t := mk {
  data : option bytes;
  pos : Z;
  closed : bool
}.

Definition __init__ (d : bytes) : t :=
  {| data := Some d; pos := 0; closed := false |}.

Definition writable (self : t) : bool := false.
Definition readable (self : t) : bool := true.
Definition seekable (self : t) : bool := true.
Definition isatty (self : t) : bool := false.

Definition set_pos (self : t) (p : Z) : t :=
  {| data := data self; pos := p; closed := closed self |}.

(** [readview(size=-1)]; [size] is [None] or an int. [len(data)] raises
    [TypeError] when [data] is [None]. *)
Definition readview (self : t) (size : option Z) : result bytes * t :=
  match data self with
  | None => (Raise TypeError, self)
  | Some d =>
      let p := pos self in
      let dlen := Z.of_nat (length d) in
      if (match size with None => true | Some s => s <? 0 end) then
        (Ok (py_slice_from d p), set_pos self dlen)
      else
        let s := default 0 size in
        let e := Z.min (p + s) dlen in
        (Ok (py_slice d p e), set_pos self e)
  end.

(** [read(size=-1)]: [readview(size).tobytes()]. *)
Definition read (self : t) (size : option Z) : result bytes * t :=
  readview self size.

Definition readall (self : t) : result bytes * t := read self None.

(** [readinto(buf)] with [buf] a bytearray: returns the count, the buffer
    after [buf[:size] = data[pos:pos+size]] and the reader. *)
Definition readinto (self : t) (buf : bytes) : result (Z * bytes) * t :=
  match data self with
  | None => (Raise TypeError, self)
  | Some d =>
      let p := pos self in
      let size := Z.min (Z.of_nat (length buf)) (Z.of_nat (length d) - p) in
      let src := py_slice d p (p + size) in
      let buf' := src ++ drop (Z.to_nat (adjust_index (Z.of_nat (length buf)) size)) buf in
      (Ok (size, buf'), set_pos self (p + size))
  end.

Definition truncate (self : t) (size : Z) : result Z * t :=
  (Raise NotImplementedError, self).

Definition seek (self : t) (p : Z) (whence : Z) : result Z * t :=
  match data self with
  | None => (Raise TypeError, self)
  | Some d =>
      let dlen := Z.of_nat (length d) in
      let p1 :=
        if whence =? SEEK_CUR then p + pos self
        else if whence =? SEEK_END then p + dlen
        else p in
      let np := Z.max (Z.min dlen p1) 0 in
      (Ok np, set_pos self np)
  end.

Definition tell (self : t) : Z := pos self.

Definition close (self : t) : t :=
  {| data := None; pos := pos self; closed := true |}.

Definition fileno (self : t) : result Z := Raise OSError.

Definition flush (self : t) : t := self.

(** A method call on a reader, with its arguments. *)
Inductive call :=
| CRead (size : option Z)
| CReadview (size : option Z)
| CReadall
| CReadinto (buf : bytes)
| CSeek (p whence : Z)
| CTell
| CTruncate (size : Z)
| CFlush
| CClose.

Definition exec (c : call) (self : t) : t :=
  match c with
  | CRead size => snd (read self size)
  | CReadview size => snd (readview self size)
  | CReadall => snd (readall self)
  | CReadinto buf => snd (readinto self buf)
  | CSeek p whence => snd (seek self p whence)
  | CTell => self
  | CTruncate size => snd (truncate self size)
  | CFlush => flush self
  | CClose => close self
  end.

(** The reader after a sequence of calls. *)
Definition exec_all (cs : list call) (self : t) : t :=
  foldl (fun r c => exec c r) self cs.

(** The results of a sequence of [read] calls, and the reader after. *)
Fixpoint reads (self : t) (sizes : list (option Z)) : list (result bytes) * t :=
  match sizes with
  | [] => ([], self)
  | size :: rest =>
      let '(r, self1) := read self size in
      let '(rs, self2) := reads self1 rest in
      (r :: rs, self2)
  end.

End BytesReader.

(** ** devnull.py *)

Module DevNull.

(** The values bound to attribute names of a [DevNull] instance or class. *)
Inductive pyval :=
| VNone
| VBool (b : bool)
| VInt (z : Z)
| VFile (fd : Z)
| VMethod (name : string).

Definition truthy (v : pyval) : bool :=
  match v with
  | VNone => false
  | VBool b => b
  | VInt z => negb (z =? 0)
  | VFile _ => true
  | VMethod _ => true
  end.

Definition is_none (v : pyval) : bool :=
  match v with VNone => true | _ => false end.

(** What the interpreter the module runs on provides: [os.devnull] (absent
    on interpreters without it), [platform.system()], whether [open]
    succeeds on a path, and [subprocess.DEVNULL] (absent when the import
    fails). *)
Record host := {
  os_devnull : option string;
  platform_system : string;
  can_open : string -> bool;
  subprocess_DEVNULL : option Z
}.

(** The process's open files: descriptor to path. *)
Record files := {
  next_fd : Z;
  open_files : gmap Z string
}.

(** [open(path, 'r+b')]. *)
Definition py_open (h : host) (path : string) (fs : files) : result Z * files :=
  if can_open h path then
    (Ok (next_fd fs),
     {| next_fd := next_fd fs + 1;
        open_files := <[next_fd fs := path]> (open_files fs) |})
  else (Raise OSError, fs).

(** [f.close()] of the file object over [fd]. *)
Definition py_close (fd : Z) (fs : files) : files :=
  {| next_fd := next_fd fs; open_files := delete fd (open_files fs) |}.

(** The namespace of the class body: the [DEVNULL] binding of the
    try/except import and the methods. *)
Definition class_ns (h : host) : gmap string pyval :=
  list_to_map
    (("DEVNULL"%string,
      match subprocess_DEVNULL h with Some z => VInt z | None => VNone end)
     :: map (fun n => (n, VMethod n))
          ["__init__"; "__repr__"; "fileno"; "close"; "flush"; "isatty";
           "readable"; "readline"; "readlines"; "seek"; "seekable"; "tell";
           "truncate"; "writable"; "writelines"; "write"; "read"; "readall";
           "readinto"; "read1"; "readinto1"]%string).

(** The attributes inherited from [io.RawIOBase], [io.IOBase] and
    [object] that the class does not override. *)
Definition base_ns : list string :=
  ["closed"; "__enter__"; "__exit__"; "__iter__"; "__next__"; "__del__";
   "__class__"; "__dict__"; "__doc__"]%string.

(** The instance: its [__dict__]. *)
Record t := mk { attrs : gmap string pyval }.

(** [self.name]: instance dictionary, then the class, then its bases. *)
Definition getattr (h : host) (self : t) (name : string) : result pyval :=
  match attrs self !! name with
  | Some v => Ok v
  | None =>
      match class_ns h !! name with
      | Some v => Ok v
      | None =>
          if bool_decide (name ∈ base_ns) then Ok (VMethod name)
          else Raise AttributeError
      end
  end.

Definition setattr (self : t) (name : string) (v : pyval) : t :=
  {| attrs := <[name := v]> (attrs self) |}.

Definition __init__ (subprocess : pyval) : t :=
  setattr (setattr {| attrs := ∅ |} "_is_sp" subprocess) "_f" VNone.

(** The tail of [fileno]: [return self._f.fileno()]. *)
Definition fileno_of_f (h : host) (self : t) (fs : files) : result pyval * t * files :=
  match getattr h self "_f" with
  | Raise e => (Raise e, self, fs)
  | Ok (VFile fd) => (Ok (VInt fd), self, fs)
  | Ok _ => (Raise AttributeError, self, fs)
  end.

(** The middle of [fileno]: open the null device when [self._f is None]. *)
Definition fileno_open (h : host) (self : t) (fs : files) : result pyval * t * files :=
  match getattr h self "_f" with
  | Raise e => (Raise e, self, fs)
  | Ok f =>
      if is_none f then
        let path :=
          match os_devnull h with
          | Some p => p
          | None =>
              if String.eqb (platform_system h) "Windows" then "NUL"%string
              else "/dev/null"%string
          end in
        match py_open h path fs with
        | (Raise e, fs1) => (Raise e, self, fs1)
        | (Ok fd, fs1) => fileno_of_f h (setattr self "_f" (VFile fd)) fs1
        end
      else fileno_of_f h self fs
  end.

Definition fileno (h : host) (self : t) (fs : files) : result pyval * t * files :=
  match getattr h self "_is_sp" with
  | Raise e => (Raise e, self, fs)
  | Ok sp =>
      if truthy sp then
        match getattr h self "_DEVNULL" with
        | Raise e => (Raise e, self, fs)
        | Ok d => if negb (is_none d) then (Ok d, self, fs) else fileno_open h self fs
        end
      else fileno_open h self fs
  end.

Definition close (h : host) (self : t) (fs : files) : result unit * t * files :=
  match getattr h self "_f" with
  | Raise e => (Raise e, self, fs)
  | Ok VNone => (Ok tt, self, fs)
  | Ok (VFile fd) => (Ok tt, setattr self "_f" VNone, py_close fd fs)
  | Ok _ => (Raise AttributeError, self, fs)
  end.

Definition isatty (self : t) : bool := false.
Definition readable (self : t) : bool := true.
Definition seekable (self : t) : bool := true.
Definition writable (self : t) : bool := true.
Definition seek (self : t) (offset whence : Z) : Z := 0.
Definition tell (self : t) : Z := 0.
Definition truncate (self : t) (size : option Z) : Z := 0.
Definition write (self : t) (buf : bytes) : Z := Z.of_nat (length buf).
Definition read (self : t) (size : option Z) : bytes := [].
Definition readall (self : t) : bytes := [].
Definition readline (self : t) (size : option Z) : bytes := [].
Definition readinto (self : t) (buf : bytes) : Z := 0.

(** The calls that can change an instance or the open files; every other
    method returns a constant. *)
Inductive call := CFileno | CClose | CConst.

Definition exec (h : host) (c : call) (st : t * files) : t * files :=
  match c with
  | CFileno => let '(_, self, fs) := fileno h (fst st) (snd st) in (self, fs)
  | CClose => let '(_, self, fs) := close h (fst st) (snd st) in (self, fs)
  | CConst => st
  end.

Definition exec_all (h : host) (cs : list call) (st : t * files) : t * files :=
  foldl (fun s c => exec h c s) st cs.

End DevNull.

(** ** seqwriter.py *)

Module SeqWriter.
Section Items.
(** What a written chunk is made of: bytes, or the characters of a str. *)
Context {A : Type}.

(** The exceptions of this module's paths. *)
Inductive raised := RAttributeError | RValueError | RUnsupportedOperation | ROSError.

(** The sequence objects a writer appends to: a [list], or a
    [collections.deque] with its [maxlen]. *)
Inductive pyseq :=
| PList (items : list (list A))
| PDeque (maxlen : option nat) (items : list (list A)).

Definition items_of (s : pyseq) : list (list A) :=
  match s with PList l => l | PDeque _ l => l end.

(** [s.append(x)]: a deque over its [maxlen] drops its leftmost item. *)
Definition seq_append (s : pyseq) (x : list A) : pyseq :=
  match s with
  | PList l => PList (l ++ [x])
  | PDeque None l => PDeque None (l ++ [x])
  | PDeque (Some m) l =>
      PDeque (Some m) (if (m <? length (l ++ [x]))%nat then drop 1 (l ++ [x]) else l ++ [x])
  end.

(** The objects of the process, by reference; the caller and the writer
    may hold the same reference. *)
Record heap := {
  objs : gmap Z pyseq;
  next_ref : Z
}.

(** The [cls] argument: a type, called to make the sequence, or an
    instance, used as it is. *)
Inductive seqtype := TList | TDeque.
Inductive cls_arg := AType (c : seqtype) | AInstance (ref : Z).

Definition construct (c : seqtype) : pyseq :=
  match c with TList => PList [] | TDeque => PDeque None [] end.

(** The instance: [data] is the reference to the sequence, [None] after
    [close]; [closed] is the flag that [io.IOBase.close] sets. *)
Record t := mk {
  data : option Z;
  pos : Z;
  closed : bool
}.

Definition __init__ (cls : cls_arg) (H : heap) : t * heap :=
  match cls with
  | AType c =>
      ({| data := Some (next_ref H); pos := 0; closed := false |},
       {| objs := <[next_ref H := construct c]> (objs H); next_ref := next_ref H + 1 |})
  | AInstance ref =>
      ({| data := Some ref; pos := 0; closed := false |}, H)
  end.

Definition writable (self : t) : bool := true.
Definition readable (self : t) : bool := false.
Definition seekable (self : t) : bool := false.
Definition isatty (self : t) : bool := false.

(** [write(data)]: [self.data.append(data)] raises AttributeError when
    [self.data] is [None]. *)
Definition write (self : t) (chunk : list A) (H : heap) : (raised + Z) * t * heap :=
  match data self with
  | None => (inl RAttributeError, self, H)
  | Some ref =>
      match objs H !! ref with
      | None => (inl RAttributeError, self, H)
      | Some s =>
          let H1 := {| objs := <[ref := seq_append s chunk]> (objs H);
                       next_ref := next_ref H |} in
          let dlen := Z.of_nat (length chunk) in
          (inr dlen, {| data := data self; pos := pos self + dlen; closed := closed self |}, H1)
      end
  end.

(** [write] called on each line in turn; an exception ends it. *)
Fixpoint writes (self : t) (lines : list (list A)) (H : heap) : option raised * t * heap :=
  match lines with
  | [] => (None, self, H)
  | line :: rest =>
      match write self line H with
      | (inl e, self1, H1) => (Some e, self1, H1)
      | (inr _, self1, H1) => writes self1 rest H1
      end
  end.

(** [writelines(lines)], inherited from [io.IOBase] and not overridden: it
    raises ValueError on a closed file, and otherwise calls [write] on
    each line in turn. *)
Definition writelines (self : t) (lines : list (list A)) (H : heap) : option raised * t * heap :=
  if closed self then (Some RValueError, self, H) else writes self lines H.

Definition seek (self : t) (p : Z) (whence : option Z) : raised + Z :=
  inl RUnsupportedOperation.

Definition tell (self : t) : Z := pos self.

Definition close (self : t) : t :=
  {| data := None; pos := pos self; closed := true |}.

Definition fileno (self : t) : raised + Z := inl ROSError.

Definition flush (self : t) : t := self.

(** The total length of the chunks. *)
Definition total (chunks : list (list A)) : Z :=
  foldr (fun c n => Z.of_nat (length c) + n) 0 chunks.

End Items.
Arguments pyseq : clear implicits.
Arguments heap : clear implicits.
End SeqWriter.

(** ** The runtime under fdwrap.py: descriptors, pipes, file objects *)

(** What is fixed outside the package: the class of the caller's stream
    objects (their private state and their [read(n)] and [write(b)]
    methods), which mode strings pass the mode check of [os.fdopen], the
    capacity of a kernel pipe, and the Forwarder's chunk size. *)
Record platform := {
  ustate : Type;
  u_read : ustate -> nat -> result bytes * ustate;
  u_write : ustate -> bytes -> result nat * ustate;
  fdopen_accepts : string -> bool;
  pipe_capacity : nat;
  chunk_size : nat
}.

Inductive pend := RdEnd | WrEnd.

#[global] Instance pend_eq_dec : EqDecision pend.
Proof. solve_decision. Defined.

(** A kernel pipe: the buffered bytes, every byte ever accepted from a
    writer ([p_written], history only), and who holds each end: this
    process through a descriptor ([p_loc_r], [p_loc_w]) and other
    processes that inherited one ([p_ext_r], [p_ext_w]). *)
Record pipe := {
  p_buf : bytes;
  p_written : bytes;
  p_cap : nat;
  p_loc_r : bool;
  p_loc_w : bool;
  p_ext_r : nat;
  p_ext_w : nat
}.

Definition readers_open (p : pipe) : bool := p_loc_r p || (0 <? p_ext_r p)%nat.
Definition writers_open (p : pipe) : bool := p_loc_w p || (0 <? p_ext_w p)%nat.

(** A Python file object made by [os.fdopen]. *)
Record pyfile := {
  f_fd : Z;
  f_mode : string;
  f_closed : bool
}.

(** A stream object of the caller: its private state, whether [close()]
    was called on it, and the bytes it has acknowledged ([u_received]) and
    handed out ([u_supplied]) so far. *)
Record ustream (P : platform) := {
  u_st : ustate P;
  u_closed : bool;
  u_received : bytes;
  u_supplied : bytes
}.
Arguments u_st {P} _.
Arguments u_closed {P} _.
Arguments u_received {P} _.
Arguments u_supplied {P} _.

(** One side of a Forwarder: a stream object of the caller or a file
    object over a pipe end. *)
Inductive endpoint := EStream (o : Z) | EFile (f : Z).

Inductive fresult := NormalEof | Stopped | Error (e : pyexn).

Inductive fstate := Reading | Writing (rem : bytes) | Exited (r : fresult).

(** Modelled from the spec: the Forwarder instance of forwarder.py, which
    is imported by fdwrap.py and absent from the sources. Attributes as in
    the data model: source, sink, the two ownership flags, the stop
    request, and the running state with the recorded result. *)
Record forwarder := {
  source : endpoint;
  sink : endpoint;
  ownsSource : bool;
  ownsSink : bool;
  stop_requested : bool;
  state : fstate
}.

Inductive thread := Main | Worker (t : Z).

(** The calls on collaborating objects, recorded in call order. *)
Inductive call :=
| LPipe (r w : Z)
| LFdopen (fd : Z) (mode : string)
| LFileClose (f : Z)
| LStreamClose (o : Z)
| LFwdStart (t : Z)
| LFwdStop (t : Z)
| LFwdJoin (t : Z).

Record world (P : platform) := {
  fdt : gmap Z (Z * pend);
  pipes : gmap Z pipe;
  files : gmap Z pyfile;
  streams : gmap Z (ustream P);
  fwds : gmap Z forwarder;
  next_fd : Z;
  next_id : Z;
  log : list (thread * call)
}.
Arguments fdt {P} _.
Arguments pipes {P} _.
Arguments files {P} _.
Arguments streams {P} _.
Arguments fwds {P} _.
Arguments next_fd {P} _.
Arguments next_id {P} _.
Arguments log {P} _.

(** The result of an operation on the world: it returns, it raises, or it
    cannot proceed (it blocks, or it was handed a reference to no object). *)
Inductive outcome (P : platform) (A : Type) :=
| Done (a : A) (w : world P)
| Fail (e : pyexn) (w : world P)
| Stuck.
Arguments Done {P A} a w.
Arguments Fail {P A} e w.
Arguments Stuck {P A}.

Definition obind {P A B} (m : outcome P A) (k : A -> world P -> outcome P B) : outcome P B :=
  match m with
  | Done a w => k a w
  | Fail e w => Fail e w
  | Stuck => Stuck
  end.

Notation "'do' x <- m 'in' w ; k" := (obind m (fun x w => k))
  (at level 10, x name, w name, m at level 100, k at level 200).

Module Runtime.
Section WithPlatform.
Context {P : platform}.

Definition set_fdt (w : world P) (v : gmap Z (Z * pend)) : world P :=
  {| fdt := v; pipes := pipes w; files := files w; streams := streams w;
     fwds := fwds w; next_fd := next_fd w; next_id := next_id w; log := log w |}.
Definition set_pipes (w : world P) (v : gmap Z pipe) : world P :=
  {| fdt := fdt w; pipes := v; files := files w; streams := streams w;
     fwds := fwds w; next_fd := next_fd w; next_id := next_id w; log := log w |}.
Definition set_files (w : world P) (v : gmap Z pyfile) : world P :=
  {| fdt := fdt w; pipes := pipes w; files := v; streams := streams w;
     fwds := fwds w; next_fd := next_fd w; next_id := next_id w; log := log w |}.
Definition set_streams (w : world P) (v : gmap Z (ustream P)) : world P :=
  {| fdt := fdt w; pipes := pipes w; files := files w; streams := v;
     fwds := fwds w; next_fd := next_fd w; next_id := next_id w; log := log w |}.
Definition set_fwds (w : world P) (v : gmap Z forwarder) : world P :=
  {| fdt := fdt w; pipes := pipes w; files := files w; streams := streams w;
     fwds := v; next_fd := next_fd w; next_id := next_id w; log := log w |}.
Definition set_next_fd (w : world P) (v : Z) : world P :=
  {| fdt := fdt w; pipes := pipes w; files := files w; streams := streams w;
     fwds := fwds w; next_fd := v; next_id := next_id w; log := log w |}.
Definition set_next_id (w : world P) (v : Z) : world P :=
  {| fdt := fdt w; pipes := pipes w; files := files w; streams := streams w;
     fwds := fwds w; next_fd := next_fd w; next_id := v; log := log w |}.
Definition record (who : thread) (c : call) (w : world P) : world P :=
  {| fdt := fdt w; pipes := pipes w; files := files w; streams := streams w;
     fwds := fwds w; next_fd := next_fd w; next_id := next_id w;
     log := log w ++ [(who, c)] |}.

Definition set_buf (p : pipe) (buf written : bytes) : pipe :=
  {| p_buf := buf; p_written := written; p_cap := p_cap p;
     p_loc_r := p_loc_r p; p_loc_w := p_loc_w p;
     p_ext_r := p_ext_r p; p_ext_w := p_ext_w p |}.
Definition set_local (p : pipe) (e : pend) (b : bool) : pipe :=
  {| p_buf := p_buf p; p_written := p_written p; p_cap := p_cap p;
     p_loc_r := match e with RdEnd => b | WrEnd => p_loc_r p end;
     p_loc_w := match e with RdEnd => p_loc_w p | WrEnd => b end;
     p_ext_r := p_ext_r p; p_ext_w := p_ext_w p |}.
Definition set_ext (p : pipe) (e : pend) (n : nat) : pipe :=
  {| p_buf := p_buf p; p_written := p_written p; p_cap := p_cap p;
     p_loc_r := p_loc_r p; p_loc_w := p_loc_w p;
     p_ext_r := match e with RdEnd => n | WrEnd => p_ext_r p end;
     p_ext_w := match e with RdEnd => p_ext_w p | WrEnd => n end |}.
Definition ext_count (p : pipe) (e : pend) : nat :=
  match e with RdEnd => p_ext_r p | WrEnd => p_ext_w p end.

(** [os.pipe()]: a new pipe and its two descriptors [(r, w)]. *)
Definition os_pipe (w : world P) : (Z * Z) * world P :=
  let r := next_fd w in
  let wr := next_fd w + 1 in
  let p := next_id w in
  let newp := {| p_buf := []; p_written := []; p_cap := pipe_capacity P;
                 p_loc_r := true; p_loc_w := true; p_ext_r := 0; p_ext_w := 0 |} in
  ((r, wr),
   record Main (LPipe r wr)
     {| fdt := <[wr := (p, WrEnd)]> (<[r := (p, RdEnd)]> (fdt w));
        pipes := <[p := newp]> (pipes w);
        files := files w; streams := streams w; fwds := fwds w;
        next_fd := next_fd w + 2; next_id := next_id w + 1; log := log w |}).

(** [os.close(fd)]: [OSError] (bad descriptor) when [fd] is not open. *)
Definition os_close (fd : Z) (w : world P) : outcome P unit :=
  match fdt w !! fd with
  | None => Fail OSError w
  | Some (p, e) =>
      let w1 := set_fdt w (delete fd (fdt w)) in
      Done tt (set_pipes w1 (alter (fun q => set_local q e false) p (pipes w1)))
  end.

(** A read of up to [n] bytes on a pipe: what is buffered, end-of-data
    once no writer is left, and otherwise it blocks. *)
Definition pipe_pull (p : Z) (n : nat) (w : world P) : outcome P bytes :=
  match pipes w !! p with
  | None => Stuck
  | Some q =>
      match p_buf q with
      | [] => if writers_open q then Stuck else Done [] w
      | _ :: _ =>
          Done (take n (p_buf q))
            (set_pipes w (<[p := set_buf q (drop n (p_buf q)) (p_written q)]> (pipes w)))
      end
  end.

(** A write on a pipe: broken pipe once no reader is left; it blocks when
    the buffer is full, and otherwise accepts what fits and returns that
    count. *)
Definition pipe_push (p : Z) (c : bytes) (w : world P) : outcome P nat :=
  match pipes w !! p with
  | None => Stuck
  | Some q =>
      if negb (readers_open q) then Fail BrokenPipeError w
      else
        let room := (p_cap q - length (p_buf q))%nat in
        if (room =? 0)%nat then Stuck
        else
          let k := (room `min` length c)%nat in
          Done k
            (set_pipes w
               (<[p := set_buf q (p_buf q ++ take k c) (p_written q ++ take k c)]> (pipes w)))
  end.

(** [os.fdopen(fd, mode)], which is [io.open(fd, mode)]. A mode string
    that fails the mode check raises ValueError before the descriptor is
    touched. Otherwise the raw file is made over the descriptor. A mode
    with [+] asks for a buffered random-access file, which needs a raw
    file that can seek; every descriptor here is a pipe end, which
    cannot, so io.UnsupportedOperation is raised and [io.open] closes the
    raw file, and with it the descriptor it was given. *)
Definition os_fdopen (fd : Z) (mode : string) (w : world P) : outcome P Z :=
  let w0 := record Main (LFdopen fd mode) w in
  if fdopen_accepts P mode then
    match fdt w0 !! fd with
    | None => Fail OSError w0
    | Some _ =>
        if str_contains "+" mode then
          do _u <- os_close fd w0 in w1;
          Fail UnsupportedOperation w1
        else
          let f := next_id w0 in
          Done f
            (set_next_id
               (set_files w0 (<[f := {| f_fd := fd; f_mode := mode; f_closed := false |}]> (files w0)))
               (next_id w0 + 1))
    end
  else Fail ValueError w0.

(** [f.close()] on a file object: nothing on a closed one, else the
    descriptor is closed and the object marked. *)
Definition file_close (who : thread) (f : Z) (w : world P) : outcome P unit :=
  match files w !! f with
  | None => Stuck
  | Some fo =>
      let w0 := record who (LFileClose f) w in
      if f_closed fo then Done tt w0
      else
        let w1 := set_files w0
          (<[f := {| f_fd := f_fd fo; f_mode := f_mode fo; f_closed := true |}]> (files w0)) in
        os_close (f_fd fo) w1
  end.

(** [f.fileno()]. *)
Definition file_fileno (f : Z) (w : world P) : outcome P Z :=
  match files w !! f with
  | None => Stuck
  | Some fo => if f_closed fo then Fail ValueError w else Done (f_fd fo) w
  end.

(** [f.read(n)] on a file object over a pipe's read end. *)
Definition file_read (f : Z) (n : nat) (w : world P) : outcome P bytes :=
  match files w !! f with
  | None => Stuck
  | Some fo =>
      if f_closed fo then Fail ValueError w
      else
        match fdt w !! f_fd fo with
        | Some (p, RdEnd) => pipe_pull p n w
        | _ => Fail OSError w
        end
  end.

(** [f.write(c)] on a file object over a pipe's write end. *)
Definition file_write (f : Z) (c : bytes) (w : world P) : outcome P nat :=
  match files w !! f with
  | None => Stuck
  | Some fo =>
      if f_closed fo then Fail ValueError w
      else
        match fdt w !! f_fd fo with
        | Some (p, WrEnd) => pipe_push p c w
        | _ => Fail OSError w
        end
  end.

Definition put_stream (o : Z) (u : ustream P) (w : world P) : world P :=
  set_streams w (<[o := u]> (streams w)).

(** [o.read(n)] on a stream object of the caller. *)
Definition stream_read (o : Z) (n : nat) (w : world P) : outcome P bytes :=
  match streams w !! o with
  | None => Stuck
  | Some u =>
      if u_closed u then Fail ValueError w
      else
        match u_read P (u_st u) n with
        | (Ok bs, st) =>
            Done bs (put_stream o
              {| u_st := st; u_closed := false; u_received := u_received u;
                 u_supplied := u_supplied u ++ bs |} w)
        | (Raise e, st) =>
            Fail e (put_stream o
              {| u_st := st; u_closed := false; u_received := u_received u;
                 u_supplied := u_supplied u |} w)
        end
  end.

(** [o.write(c)] on a stream object of the caller: it acknowledges the
    first [n] bytes of [c] and returns [n]. *)
Definition stream_write (o : Z) (c : bytes) (w : world P) : outcome P nat :=
  match streams w !! o with
  | None => Stuck
  | Some u =>
      if u_closed u then Fail ValueError w
      else
        match u_write P (u_st u) c with
        | (Ok n, st) =>
            Done n (put_stream o
              {| u_st := st; u_closed := false; u_received := u_received u ++ take n c;
                 u_supplied := u_supplied u |} w)
        | (Raise e, st) =>
            Fail e (put_stream o
              {| u_st := st; u_closed := false; u_received := u_received u;
                 u_supplied := u_supplied u |} w)
        end
  end.

(** [o.close()] on a stream object of the caller. *)
Definition stream_close (who : thread) (o : Z) (w : world P) : outcome P unit :=
  match streams w !! o with
  | None => Stuck
  | Some u =>
      Done tt (put_stream o
        {| u_st := u_st u; u_closed := true; u_received := u_received u;
           u_supplied := u_supplied u |} (record who (LStreamClose o) w))
  end.

Definition ep_read (ep : endpoint) (n : nat) (w : world P) : outcome P bytes :=
  match ep with EStream o => stream_read o n w | EFile f => file_read f n w end.
Definition ep_write (ep : endpoint) (c : bytes) (w : world P) : outcome P nat :=
  match ep with EStream o => stream_write o c w | EFile f => file_write f c w end.
Definition ep_close (who : thread) (ep : endpoint) (w : world P) : outcome P unit :=
  match ep with EStream o => stream_close who o w | EFile f => file_close who f w end.

End WithPlatform.
End Runtime.

(** ** forwarder.py *)

(** What other processes and the scheduler do between two calls of the
    caller: the Forwarder's thread takes one step of its loop; some holder
    of a pipe's write end (resp. read end) writes (resp. reads), through
    the process's descriptor [fd] or as another process; another process
    inherits a copy of descriptor [fd], or closes its copy of an end. *)
Inductive event :=
| EvFwd (t : Z)
| EvWrite (fd : Z) (c : bytes)
| EvRead (fd : Z) (n : nat)
| EvExtInherit (fd : Z)
| EvExtWrite (p : Z) (c : bytes)
| EvExtRead (p : Z) (n : nat)
| EvExtClose (p : Z) (e : pend).

Module Forwarder.
Section WithPlatform.
Context {P : platform}.
Import Runtime.

Definition set_state (F : forwarder) (s : fstate) : forwarder :=
  {| source := source F; sink := sink F; ownsSource := ownsSource F;
     ownsSink := ownsSink F; stop_requested := stop_requested F; state := s |}.
Definition set_stop (F : forwarder) : forwarder :=
  {| source := source F; sink := sink F; ownsSource := ownsSource F;
     ownsSink := ownsSink F; stop_requested := true; state := state F |}.

Definition put (t : Z) (F : forwarder) (w : world P) : world P :=
  set_fwds w (<[t := F]> (fwds w)).

(** The world after an operation whose failure is not propagated. *)
Definition after {A} (m : outcome P A) (w : world P) : world P :=
  match m with Done _ w1 => w1 | Fail _ w1 => w1 | Stuck => w end.

(** Modelled from the spec: [start(source, sink, ownsSource, ownsSink)]
    of the absent forwarder.py; the loop begins at its first read. *)
Definition start (src snk : endpoint) (osrc osnk : bool) (w : world P) : outcome P Z :=
  let t := next_id w in
  Done t
    (record Main (LFwdStart t)
       (set_next_id
          (put t {| source := src; sink := snk; ownsSource := osrc; ownsSink := osnk;
                    stop_requested := false; state := Reading |} w)
          (next_id w + 1))).

(** Modelled from the spec: the loop exit of the absent forwarder.py:
    close [source] if owned, close [sink] if owned, record the result. *)
Definition leave (t : Z) (F : forwarder) (r : fresult) (w : world P) : world P :=
  let w1 := if ownsSource F then after (ep_close (Worker t) (source F) w) w else w in
  let w2 := if ownsSink F then after (ep_close (Worker t) (sink F) w1) w1 else w1 in
  put t (set_state F (Exited r)) w2.

(** Modelled from the spec: one step of the copy loop of the absent
    forwarder.py. At a read or write boundary a stop request ends the
    loop. A read of up to [chunk_size] bytes: zero bytes end the loop
    normally, a failure ends it with an error. A write of what is left
    of the chunk: the acknowledged prefix is dropped and the rest is
    retried; a failure ends the loop with an error. [None]: the step
    cannot be taken now (the read or write blocks). *)
Definition step (t : Z) (w : world P) : option (world P) :=
  match fwds w !! t with
  | None => None
  | Some F =>
      match state F with
      | Exited _ => Some w
      | Reading =>
          if stop_requested F then Some (leave t F Stopped w)
          else
            match ep_read (source F) (chunk_size P) w with
            | Stuck => None
            | Fail e w1 => Some (leave t F (Error e) w1)
            | Done [] w1 => Some (leave t F NormalEof w1)
            | Done c w1 => Some (put t (set_state F (Writing c)) w1)
            end
      | Writing rem =>
          if stop_requested F then Some (leave t F Stopped w)
          else
            match ep_write (sink F) rem w with
            | Stuck => None
            | Fail e w1 => Some (leave t F (Error e) w1)
            | Done n w1 =>
                match drop n rem with
                | [] => Some (put t (set_state F Reading) w1)
                | rest => Some (put t (set_state F (Writing rest)) w1)
                end
            end
      end
  end.

Definition exited (t : Z) (w : world P) : option fresult :=
  match fwds w !! t with
  | Some F => match state F with Exited r => Some r | _ => None end
  | None => None
  end.

(** Another process inherits a copy of descriptor [fd]. *)
Definition ext_inherit (fd : Z) (w : world P) : option (world P) :=
  match fdt w !! fd with
  | None => None
  | Some (p, e) =>
      Some (set_pipes w (alter (fun q => set_ext q e (S (ext_count q e))) p (pipes w)))
  end.

(** Another process closes its copy of end [e] of pipe [p]. *)
Definition ext_close (p : Z) (e : pend) (w : world P) : option (world P) :=
  match pipes w !! p with
  | None => None
  | Some q =>
      match ext_count q e with
      | O => None
      | S n => Some (set_pipes w (<[p := set_ext q e n]> (pipes w)))
      end
  end.

Definition done_world {A} (m : outcome P A) : option (world P) :=
  match m with Done _ w => Some w | _ => None end.

(** One event; [None] when it cannot happen in this world. *)
Definition occur (ev : event) (w : world P) : option (world P) :=
  match ev with
  | EvFwd t => step t w
  | EvWrite fd c =>
      match fdt w !! fd with
      | Some (p, WrEnd) => done_world (pipe_push p c w)
      | _ => None
      end
  | EvRead fd n =>
      match fdt w !! fd with
      | Some (p, RdEnd) => done_world (pipe_pull p n w)
      | _ => None
      end
  | EvExtInherit fd => ext_inherit fd w
  | EvExtWrite p c =>
      match pipes w !! p with
      | Some q => if (0 <? p_ext_w q)%nat then done_world (pipe_push p c w) else None
      | None => None
      end
  | EvExtRead p n =>
      match pipes w !! p with
      | Some q => if (0 <? p_ext_r q)%nat then done_world (pipe_pull p n w) else None
      | None => None
      end
  | EvExtClose p e => ext_close p e w
  end.

Fixpoint run (evs : list event) (w : world P) : option (world P) :=
  match evs with
  | [] => Some w
  | ev :: rest =>
      match occur ev w with
      | Some w1 => run rest w1
      | None => None
      end
  end.

(** Modelled from the spec: [stop()] of the absent forwarder.py: it
    records the request for the loop to see at its next boundary, does
    not block, and does nothing once the loop has exited. The descriptor
    that the Forwarder privately holds is released by the loop's exit
    ([leave]), which the request brings about; [stop] itself closes
    nothing. *)
Definition stop (t : Z) (w : world P) : outcome P unit :=
  match fwds w !! t with
  | None => Stuck
  | Some F =>
      let w0 := record Main (LFwdStop t) w in
      match state F with
      | Exited _ => Done tt w0
      | _ => Done tt (put t (set_stop F) w0)
      end
  end.

(** Modelled from the spec: [join()] of the absent forwarder.py: the
    caller waits while the rest of the system does [bg], and gets the
    recorded result once the loop has exited; it returns at once when
    the loop had exited before. *)
Definition join (bg : list event) (t : Z) (w : world P) : outcome P fresult :=
  let w0 := record Main (LFwdJoin t) w in
  match exited t w0 with
  | Some r => Done r w0
  | None =>
      match run bg w0 with
      | None => Stuck
      | Some w1 =>
          match exited t w1 with
          | Some r => Done r w1
          | None => Stuck
          end
      end
  end.

End WithPlatform.
End Forwarder.

(** ** fdwrap.py *)

Module FDWrap.
Section WithPlatform.
Context {P : platform}.
Import Runtime.

(** The instance: references to the wrapped object, the exposed file
    object and the forwarder. *)
Record t := mk {
  _orig : Z;
  file : Z;
  _forward : Z
}.

Definition __init__ (fobj : Z) (mode : string) (w : world P) : outcome P t :=
  let '((r, wr), w1) := os_pipe w in
  if str_contains "r" mode then
    do f <- os_fdopen r mode w1 in w2;
    do snk <- os_fdopen wr "wb" w2 in w3;
    do fw <- Forwarder.start (EStream fobj) (EFile snk) false true w3 in w4;
    Done {| _orig := fobj; file := f; _forward := fw |} w4
  else
    do f <- os_fdopen wr mode w1 in w2;
    do src <- os_fdopen r "rb" w2 in w3;
    do fw <- Forwarder.start (EFile src) (EStream fobj) true false w3 in w4;
    Done {| _orig := fobj; file := f; _forward := fw |} w4.

Definition __enter__ (self : t) (w : world P) : outcome P t := Done self w.

Definition __exit__ (self : t) (w : world P) : outcome P unit :=
  file_close Main (file self) w.

(** [join()]; [bg] is what the rest of the system does while the call
    waits inside the Forwarder's [join]. *)
Definition join (bg : list event) (self : t) (w : world P) : outcome P Z :=
  do _u <- file_close Main (file self) w in w1;
  do _r <- Forwarder.join bg (_forward self) w1 in w2;
  Done (_orig self) w2.

Definition detach (self : t) (w : world P) : outcome P Z :=
  do _u <- Forwarder.stop (_forward self) w in w1;
  Done (_orig self) w1.

Definition close (self : t) (w : world P) : outcome P unit :=
  do o <- detach self w in w1;
  stream_close Main o w1.

Definition fileno (self : t) (w : world P) : outcome P Z :=
  file_fileno (file self) w.

Definition isatty : bool := false.
Definition readable : bool := false.
Definition writable : bool := false.
Definition seekable : bool := false.

End WithPlatform.
End FDWrap.

(** ** A process that uses one bridge *)

Module System.
Section WithPlatform.
Context {P : platform}.

(** A fresh process that holds one stream object, with reference [0] and
    private state [st]; descriptors 0 to 2 are the standard streams. *)
Definition boot (st : ustate P) : world P :=
  {| fdt := ∅; pipes := ∅; files := ∅;
     streams := {[ 0 := {| u_st := st; u_closed := false;
                           u_received := []; u_supplied := [] |} ]};
     fwds := ∅; next_fd := 3; next_id := 1; log := [] |}.

(** What happens next: an event of the environment, or a call of the
    caller on its bridge. *)
Inductive action :=
| AEnv (ev : event)
| AEnter
| AExit
| AFileno
| ADetach
| AClose
| AJoin (bg : list event).

(** The world after a call: a raised exception is caught by the caller,
    who goes on. *)
Definition settle {A} (m : outcome P A) : option (world P) :=
  match m with Done _ w => Some w | Fail _ w => Some w | Stuck => None end.

Definition act (self : FDWrap.t) (a : action) (w : world P) : option (world P) :=
  match a with
  | AEnv ev => Forwarder.occur ev w
  | AEnter => settle (FDWrap.__enter__ self w)
  | AExit => settle (FDWrap.__exit__ self w)
  | AFileno => settle (FDWrap.fileno self w)
  | ADetach => settle (FDWrap.detach self w)
  | AClose => settle (FDWrap.close self w)
  | AJoin bg => settle (FDWrap.join bg self w)
  end.

Fixpoint session (self : FDWrap.t) (acts : list action) (w : world P) : option (world P) :=
  match acts with
  | [] => Some w
  | a :: rest =>
      match act self a w with
      | Some w1 => session self rest w1
      | None => None
      end
  end.

(** The event addresses no descriptor of this process other than [fd]. *)
Definition event_on (fd : Z) (ev : event) : bool :=
  match ev with
  | EvWrite fd' _ | EvRead fd' _ | EvExtInherit fd' => bool_decide (fd' = fd)
  | _ => true
  end.

(** The action leaves the forwarder and the wrapped object to the
    bridge: no [detach], no [close], and the environment uses only
    descriptor [fd]. *)
Definition calm (fd : Z) (a : action) : bool :=
  match a with
  | AEnv ev => event_on fd ev
  | ADetach | AClose => false
  | AJoin bg => forallb (event_on fd) bg
  | _ => true
  end.

(** The action is the bridge's [close()], which closes the wrapped object. *)
Definition closes_object (a : action) : bool :=
  match a with AClose => true | _ => false end.

(** What the caller's stream object [o] has acknowledged so far. *)
Definition received (o : Z) (w : world P) : option bytes :=
  u_received <$> streams w !! o.

(** Everything written so far into the pipe behind descriptor entry
    [p]. *)
Definition written (p : Z) (w : world P) : option bytes :=
  p_written <$> pipes w !! p.

Definition stream_closed (o : Z) (w : world P) : option bool :=
  u_closed <$> streams w !! o.

Definition file_closed (f : Z) (w : world P) : option bool :=
  f_closed <$> files w !! f.

(** The calls that thread [who] made, in order. *)
Definition calls_of (who : thread) (l : list (thread * call)) : list call :=
  omap (fun e => match e.1, who with
                 | Main, Main => Some e.2
                 | Worker a, Worker b => if bool_decide (a = b) then Some e.2 else None
                 | _, _ => None
                 end) l.

End WithPlatform.
End System.

(** ** Invariants of the runtime *)

Module Inv.
Section WithPlatform.
Context {P : platform}.
Import System.

(** From [w] to [w']: the caller's thread made no call, and no closed file
    object was reopened. *)
Definition quiet (w w' : world P) : Prop :=
  calls_of Main (log w') = calls_of Main (log w)
  /\ (forall f, file_closed f w = Some true -> file_closed f w' = Some true).

(** No forwarder owns a stream object of the caller. *)
Definition borrowed (w : world P) : Prop :=
  forall t F, fwds w !! t = Some F ->
    (forall o, source F = EStream o -> ownsSource F = false)
    /\ (forall o, sink F = EStream o -> ownsSink F = false).

(** Object [o] is open, nothing but the caller can close it, and forwarder
    [t] exists. *)
Definition kept (o t : Z) (w : world P) : Prop :=
  borrowed w /\ stream_closed o w = Some false /\ is_Some (fwds w !! t).

End WithPlatform.
End Inv.

(** ** A fresh process with one write-mode bridge *)

Module Fresh.
Section WithPlatform.
Context {P : platform}.
Variable mode : string.

(** The objects of a process that was booted and then built one
    write-mode bridge: pipe [1] with descriptors [3] (read end) and [4]
    (write end), the exposed file object [2] over [4], the Forwarder's
    file object [3] over [3], and forwarder [4], over stream object [0]. *)
Definition exposed_file (cx : bool) : pyfile :=
  {| f_fd := 4; f_mode := mode; f_closed := cx |}.
Definition private_file (cp : bool) : pyfile :=
  {| f_fd := 3; f_mode := "rb"; f_closed := cp |}.

Definition fdt_of (lr lw : bool) : gmap Z (Z * pend) :=
  (if lw then <[4 := (1, WrEnd)]> else id)
    ((if lr then <[3 := (1, RdEnd)]> else id) ∅).

Definition files_of (cx cp : bool) : gmap Z pyfile :=
  <[3 := private_file cp]> {[2 := exposed_file cx]}.

Definition shape (q : pipe) (F : forwarder) (u : ustream P) (cx cp : bool)
    (nfd nid : Z) (lg : list (thread * call)) : world P :=
  {| fdt := fdt_of (p_loc_r q) (p_loc_w q);
     pipes := {[1 := q]};
     files := files_of cx cp;
     streams := {[0 := u]};
     fwds := {[4 := F]};
     next_fd := nfd; next_id := nid; log := lg |}.

(** The bytes in transit: everything written into the pipe is what the
    sink has acknowledged, then what the Forwarder still holds of its
    chunk (never empty), then what the pipe buffers. A loop that has exited met
    end-of-data with nothing in transit and no writer left. *)
Definition flow (s : fstate) (q : pipe) (u : ustream P) (cp : bool) : Prop :=
  match s with
  | Reading =>
      p_written q = u_received u ++ p_buf q /\ cp = false /\ p_loc_r q = true
  | Writing rem =>
      p_written q = u_received u ++ rem ++ p_buf q /\ cp = false /\ p_loc_r q = true
      /\ rem <> []
  | Exited r =>
      r = NormalEof /\ p_written q = u_received u /\ writers_open q = false
  end.

Inductive good : world P -> Prop :=
| good_shape q F u cx cp nfd nid lg :
    source F = EFile 3 -> sink F = EStream 0 ->
    ownsSource F = true -> ownsSink F = false ->
    stop_requested F = false -> u_closed u = false -> p_ext_r q = 0%nat ->
    cx = negb (p_loc_w q) ->
    flow (state F) q u cp ->
    good (shape q F u cx cp nfd nid lg).

(** A bound on the steps the Forwarder still needs once no writer is
    left: two per buffered byte, one per byte of the chunk in hand, and
    one to see end-of-data. *)
Definition steps_left (w : world P) : nat :=
  match fwds w !! 4, pipes w !! 1 with
  | Some F, Some q =>
      match state F with
      | Reading => 2 * length (p_buf q) + 1
      | Writing rem => 2 * length (p_buf q) + length rem + 1
      | Exited _ => 0
      end
  | _, _ => 0
  end.

(** Nobody holds the write end of the pipe any more. *)
Definition no_writer (w : world P) : Prop :=
  forall q, pipes w !! 1 = Some q -> writers_open q = false.

End WithPlatform.
Arguments fdt_of : simpl never.
Arguments files_of : simpl never.
End Fresh.

(** ** A concrete platform for examples *)

Definition count_of (c : ascii) (s : string) : nat :=
  if str_contains c s then 1%nat else 0%nat.

Fixpoint no_repeat (s : string) : bool :=
  match s with
  | EmptyString => true
  | String a rest => negb (str_contains a rest) && no_repeat rest
  end.

Fixpoint all_in (allowed : string) (s : string) : bool :=
  match s with
  | EmptyString => true
  | String a rest => str_contains a allowed && all_in allowed rest
  end.

(** The mode check of CPython 3's [io.open], which [os.fdopen] calls: known
    letters only, none repeated, not both text and binary, and exactly one
    of create, read, write, append. *)
Definition cpython_mode_ok (mode : string) : bool :=
  all_in "axrwb+t" mode && no_repeat mode
  && negb (str_contains "t" mode && str_contains "b" mode)
  && (count_of "x" mode + count_of "r" mode + count_of "w" mode + count_of "a" mode =? 1)%nat.

(** Stream objects that hold a byte string: [read(n)] hands out the next
    [n] bytes, [write(b)] appends at most two bytes of [b] per call. *)
Definition demo : platform :=
  {| ustate := bytes;
     u_read := fun st n => (Ok (take n st), drop n st);
     u_write := fun st c => (Ok (2 `min` length c)%nat, st ++ take 2 c);
     fdopen_accepts := cpython_mode_ok;
     pipe_capacity := 4;
     chunk_size := 3 |}.

(** A write-mode scenario on [demo]: the process builds the bridge, writes
    five bytes through descriptor 4 (the pipe takes four), a child process
    inherits the descriptor, the scope exits, the child writes one more
    byte and exits; then [join()] waits for the Forwarder. *)
Definition demo_self : FDWrap.t :=
  {| FDWrap._orig := 0; FDWrap.file := 2; FDWrap._forward := 4 |}.

Definition demo_boot : world demo := System.boot (P := demo) [].

Definition demo_w0 : world demo :=
  Forwarder.after (FDWrap.__init__ 0 "wb" demo_boot) demo_boot.

Definition demo_acts : list System.action :=
  [System.AEnter; System.AFileno;
   System.AEnv (EvWrite 4 [x68; x65; x6c; x6c; x6f]);
   System.AEnv (EvFwd 4); System.AEnv (EvFwd 4);
   System.AEnv (EvExtInherit 4); System.AExit;
   System.AEnv (EvExtWrite 1 [x0a]); System.AEnv (EvFwd 4);
   System.AEnv (EvExtClose 1 WrEnd)].

Definition demo_w1 : world demo :=
  default demo_w0 (System.session demo_self demo_acts demo_w0).

Definition demo_bg : list event := repeat (EvFwd 4) 12.

Definition demo_w2 : world demo :=
  Forwarder.after (FDWrap.join demo_bg demo_self demo_w1) demo_w1.

(** A read-mode scenario on [demo]: the source holds seven bytes; the
    Forwarder moves the first chunk into the pipe, the consumer reads one
    byte from descriptor 3, and the scope exits. *)
Definition demo_rboot : world demo :=
  System.boot (P := demo) [x61; x62; x63; x64; x65; x66; x67].

Definition demo_r0 : world demo :=
  Forwarder.after (FDWrap.__init__ 0 "rb" demo_rboot) demo_rboot.

Definition demo_racts : list System.action :=
  [System.AEnv (EvFwd 4); System.AEnv (EvFwd 4); System.AEnv (EvRead 3 1); System.AExit].

Definition demo_r1 : world demo :=
  default demo_r0 (System.session demo_self demo_racts demo_r0).

(** ** What the specification expects of the capability queries *)

Inductive direction := ReadMode | WriteMode.

(** How [FDWrap.__init__] resolves a mode string. *)
Definition mode_direction (mode : string) : direction :=
  if str_contains "r" mode then ReadMode else WriteMode.

(** A mode that names exactly one of reading and writing. *)
Definition mode_resolves (mode : string) : bool :=
  xorb (str_contains "r" mode) (str_contains "w" mode).

(** ** Helpers for the statements about the readers and writers *)

(** The values of the calls that returned. *)
Definition oks {A} (rs : list (result A)) : list A :=
  omap (fun r => match r with Ok a => Some a | Raise _ => None end) rs.

Definition is_ok {A} (r : result A) : bool :=
  match r with Ok _ => true | Raise _ => false end.

(** The path [DevNull.fileno] opens: [os.devnull], or, on an interpreter
    without it, [NUL] on Windows and [/dev/null] elsewhere. *)
Definition null_device (h : DevNull.host) : string :=
  match DevNull.os_devnull h with
  | Some p => p
  | None =>
      if String.eqb (DevNull.platform_system h) "Windows" then "NUL"%string
      else "/dev/null"%string
  end.

(** The instance that holds the file object over descriptor [fd]. *)
Definition holding (sp : DevNull.pyval) (fd : Z) : DevNull.t :=
  DevNull.setattr (DevNull.__init__ sp) "_f" (DevNull.VFile fd).

(** The open files after [open] gave descriptor [next_fd] to [path]. *)
Definition opened (path : string) (fs : DevNull.files) : DevNull.files :=
  {| DevNull.next_fd := DevNull.next_fd fs + 1;
     DevNull.open_files := <[DevNull.next_fd fs := path]> (DevNull.open_files fs) |}.

(** No descriptor at or above the next one to hand out is in use. *)
Definition fresh_above (fs : DevNull.files) : Prop :=
  forall k, DevNull.next_fd fs <= k -> DevNull.open_files fs !! k = None.
(** What a plain instance and the open files can look like after any
    calls: nothing held and the files as at the start, or one descriptor
    held, opened on the null device after the start. *)
Definition at_most_one (h : DevNull.host) (sp : DevNull.pyval) (fs0 : DevNull.files)
    (st : DevNull.t * DevNull.files) : Prop :=
  DevNull.next_fd fs0 <= DevNull.next_fd (snd st) /\ fresh_above (snd st)
  /\ ((fst st = DevNull.__init__ sp /\ DevNull.open_files (snd st) = DevNull.open_files fs0)
      \/ exists fd, DevNull.next_fd fs0 <= fd < DevNull.next_fd (snd st)
           /\ fst st = holding sp fd
           /\ DevNull.open_files (snd st) = <[fd := null_device h]> (DevNull.open_files fs0)).

(** A Linux interpreter with [os.devnull] and [subprocess.DEVNULL], on
    which every [open] succeeds, and a process with no file open. *)
Definition demo_host : DevNull.host :=
  {| DevNull.os_devnull := Some "/dev/null"%string;
     DevNull.platform_system := "Linux"%string;
     DevNull.can_open := fun _ => true;
     DevNull.subprocess_DEVNULL := Some (-3) |}.

Definition demo_files : DevNull.files :=
  {| DevNull.next_fd := 3; DevNull.open_files := ∅ |}.

(** A heap in which the caller holds a list with one chunk, at reference
    [5], and an empty deque with [maxlen = 2], at reference [7]. *)
Definition demo_heap : SeqWriter.heap byte :=
  {| SeqWriter.objs :=
       {[ 5 := SeqWriter.PList [[x68; x69]];
          7 := SeqWriter.PDeque (Some 2%nat) [] ]};
     SeqWriter.next_ref := 8 |}.

(** The characters of [hello world], one chunk each. *)
Definition demo_chars : list (list byte) :=
  map (fun c => [c]) [x68; x65; x6c; x6c; x6f; x20; x77; x6f; x72; x6c; x64].

(** The write-mode scenario after the scope has been left, and after the
    Forwarder has then taken a step and the scope has been left again. *)
Definition demo_x0 : world demo :=
  Forwarder.after (FDWrap.__exit__ demo_self demo_w0) demo_w0.

Definition demo_xacts : list System.action :=
  [System.AEnv (EvFwd 4); System.AExit].

Definition demo_x1 : world demo :=
  default demo_x0 (System.session demo_self demo_xacts demo_x0).

(** The write-mode scenario after the Forwarder's [stop] has returned. *)
Definition demo_s0 : world demo :=
  Forwarder.after (Forwarder.stop (FDWrap._forward demo_self) demo_w0) demo_w0.

(** The pipe of the write-mode scenario before any byte is written. *)
Definition demo_pipe : pipe :=
  {| p_buf := []; p_written := []; p_cap := 4; p_loc_r := true; p_loc_w := true;
     p_ext_r := 0; p_ext_w := 0 |}.

(** * Examples of the embedded runtime *)

Example py_slice_ex1 : py_slice [x01; x02; x03; x04] 1 3 = [x02; x03].
Proof. reflexivity. Qed.
Example py_slice_ex2 : py_slice [x01; x02; x03; x04] (-2) 9 = [x03; x04].
Proof. reflexivity. Qed.
Example read_ex1 :
  fst (BytesReader.read (BytesReader.__init__ [x01; x02; x03]) (Some 2)) = Ok [x01; x02].
Proof. reflexivity. Qed.

(** * Facts about bytereader.py *)

Section BytesReaderFacts.
Import BytesReader.

Lemma adjust_index_in_range (len i : Z) :
  0 <= i <= len -> adjust_index len i = i.
Proof.
  intros Hi. unfold adjust_index.
  destruct (Z.ltb_spec i 0); lia.
Qed.

Lemma py_slice_in_range {A} (l : list A) (a b : Z) :
  0 <= a <= b -> b <= Z.of_nat (length l) ->
  py_slice l a b = take (Z.to_nat (b - a)) (drop (Z.to_nat a) l).
Proof.
  intros Hab Hb. unfold py_slice.
  rewrite !adjust_index_in_range by lia. reflexivity.
Qed.

Lemma py_slice_empty {A} (l : list A) (a : Z) :
  0 <= a <= Z.of_nat (length l) -> py_slice l a a = [].
Proof.
  intros Ha. rewrite py_slice_in_range by lia.
  rewrite Z.sub_diag. reflexivity.
Qed.

(** The position stays inside the data as long as the reader is open. *)
Definition in_bounds (D : bytes) (r : t) : Prop :=
  (data r = Some D \/ data r = None) /\ 0 <= pos r <= Z.of_nat (length D).

Lemma init_in_bounds D : in_bounds D (__init__ D).
Proof. split; [left; reflexivity | simpl; lia]. Qed.

Lemma exec_in_bounds D c r : in_bounds D r -> in_bounds D (exec c r).
Proof.
  intros [Hd Hp]. unfold in_bounds.
  destruct c; simpl; unfold readall, read, readview, readinto, seek, truncate,
    flush, close; simpl.
  all: try (destruct Hd as [Hd | Hd]; rewrite Hd; simpl).
  all: try (split; [auto | assumption]).
  all: repeat match goal with
       | |- context [match ?s with Some _ => _ | None => _ end] => destruct s; simpl
       | |- context [if ?b then _ else _] => destruct b eqn:?; simpl
       end.
  all: split; [auto | lia].
Qed.

Lemma exec_all_in_bounds D cs r : in_bounds D r -> in_bounds D (exec_all cs r).
Proof.
  revert r. induction cs as [|c cs IH]; intros r Hr; simpl; [assumption|].
  apply IH, exec_in_bounds, Hr.
Qed.

Lemma read_at_end D r size :
  data r = Some D -> pos r = Z.of_nat (length D) ->
  read r size = (Ok [], r).
Proof.
  intros Hd Hp. unfold read, readview. rewrite Hd.
  destruct r as [d p c]; simpl in *; subst.
  destruct size as [s|]; simpl.
  - destruct (Z.ltb_spec s 0).
    + unfold py_slice_from. rewrite py_slice_empty by lia. reflexivity.
    + replace (Z.min _ _) with (Z.of_nat (length D)) by lia.
      rewrite py_slice_empty by lia. reflexivity.
  - unfold py_slice_from. rewrite py_slice_empty by lia. reflexivity.
Qed.

Lemma reads_at_end D r sizes :
  data r = Some D -> pos r = Z.of_nat (length D) ->
  reads r sizes = (replicate (length sizes) (Ok []), r).
Proof.
  intros Hd Hp. induction sizes as [|s sizes IH]; simpl; [reflexivity|].
  rewrite (read_at_end D) by assumption. rewrite IH. reflexivity.
Qed.

Lemma read_before_end D r size :
  data r = Some D -> 0 <= pos r <= Z.of_nat (length D) -> 0 <= size ->
  let bs := take (Z.to_nat size) (drop (Z.to_nat (pos r)) D) in
  read r (Some size) = (Ok bs, set_pos r (pos r + Z.of_nat (length bs)))
  /\ Z.of_nat (length bs) <= size.
Proof.
  intros Hd Hp Hs bs.
  assert (Hlen : length bs = (Z.to_nat size `min` (length D - Z.to_nat (pos r)))%nat).
  { unfold bs. rewrite length_take, length_drop. reflexivity. }
  split; [|lia].
  unfold read, readview. rewrite Hd. simpl.
  destruct (Z.ltb_spec size 0); [lia|].
  rewrite py_slice_in_range by lia.
  f_equal.
  - f_equal. unfold bs.
    destruct (Z.le_ge_cases (pos r + size) (Z.of_nat (length D))).
    + rewrite Z.min_l by lia. f_equal. lia.
    + rewrite Z.min_r by lia.
      rewrite !take_ge; [reflexivity | |]; rewrite length_drop; lia.
  - f_equal. lia.
Qed.

(** C9: for every BytesReader over data [D], reached from its constructor
    by any calls and still open: once the position is [len(D)], every
    later [read(size)], for every [size] ([None], negative or not),
    returns zero bytes and leaves the reader as it is; before that, a
    [read(size)] with [size >= 0] returns the next bytes from the current
    position, in order and at most [size] of them, and advances the
    position by their number. *)
Theorem BytesReader_read_contract (D : bytes) (cs : list call) (r : t) :
  r = exec_all cs (__init__ D) ->
  data r = Some D ->
  (pos r = Z.of_nat (length D) ->
     forall sizes : list (option Z),
       reads r sizes = (replicate (length sizes) (Ok []), r))
  /\ (pos r < Z.of_nat (length D) ->
     forall size : Z, 0 <= size ->
       read r (Some size)
         = (Ok (take (Z.to_nat size) (drop (Z.to_nat (pos r)) D)),
            set_pos r (pos r + Z.of_nat (length (take (Z.to_nat size) (drop (Z.to_nat (pos r)) D)))))
       /\ Z.of_nat (length (take (Z.to_nat size) (drop (Z.to_nat (pos r)) D))) <= size).
Proof.
  intros -> Hd.
  pose proof (exec_all_in_bounds D cs _ (init_in_bounds D)) as [_ Hp].
  split.
  - intros Hend sizes. apply (reads_at_end D); assumption.
  - intros Hlt size Hs. apply (read_before_end D); [assumption | lia | assumption].
Qed.

Lemma BytesReader_read_contract_witness :
  reads (exec_all [CSeek (-1) SEEK_END; CRead (Some 7)] (__init__ [x68; x69; x21]))
        [None; Some 4; Some 0; Some (-3)]
    = (replicate 4 (Ok []),
       exec_all [CSeek (-1) SEEK_END; CRead (Some 7)] (__init__ [x68; x69; x21]))
  /\ fst (read (exec_all [CSeek 1 SEEK_SET] (__init__ [x68; x69; x21])) (Some 1))
      = Ok [x69].
Proof.
  split.
  - apply (BytesReader_read_contract [x68; x69; x21]
             [CSeek (-1) SEEK_END; CRead (Some 7)] _ eq_refl eq_refl).
    reflexivity.
  - destruct (BytesReader_read_contract [x68; x69; x21] [CSeek 1 SEEK_SET] _ eq_refl eq_refl)
      as [_ H].
    destruct (H ltac:(simpl; lia) 1 ltac:(lia)) as [-> _]. reflexivity.
Defined.

End BytesReaderFacts.

(** * Facts about devnull.py *)

Section DevNullFacts.
Import DevNull.
Variable h : host.

Lemma sp_instance_is_sp : getattr h (__init__ (VBool true)) "_is_sp" = Ok (VBool true).
Proof. reflexivity. Qed.

Lemma sp_instance_f : getattr h (__init__ (VBool true)) "_f" = Ok VNone.
Proof. reflexivity. Qed.

Lemma class_ns_no_DEVNULL_underscore : class_ns h !! "_DEVNULL"%string = None.
Proof. unfold class_ns. destruct (subprocess_DEVNULL h); vm_compute; reflexivity. Qed.

Lemma sp_instance_no_DEVNULL :
  getattr h (__init__ (VBool true)) "_DEVNULL" = Raise AttributeError.
Proof.
  unfold getattr. rewrite class_ns_no_DEVNULL_underscore. reflexivity.
Qed.

Lemma sp_fileno fs :
  fileno h (__init__ (VBool true)) fs = (Raise AttributeError, __init__ (VBool true), fs).
Proof.
  unfold fileno. rewrite sp_instance_is_sp. simpl.
  rewrite sp_instance_no_DEVNULL. reflexivity.
Qed.

Lemma sp_close fs :
  close h (__init__ (VBool true)) fs = (Ok tt, __init__ (VBool true), fs).
Proof. unfold close. rewrite sp_instance_f. reflexivity. Qed.

Lemma sp_exec c fs :
  exec h c (__init__ (VBool true), fs) = (__init__ (VBool true), fs).
Proof.
  destruct c; simpl; [rewrite sp_fileno | rewrite sp_close |]; reflexivity.
Qed.

Lemma sp_exec_all cs fs :
  exec_all h cs (__init__ (VBool true), fs) = (__init__ (VBool true), fs).
Proof.
  induction cs as [|c cs IH]; simpl; [reflexivity|].
  rewrite sp_exec. exact IH.
Qed.

(** C10: for every DevNull instance constructed with [subprocess=True],
    whatever was called on it before, [fileno()] raises AttributeError
    at the read of [self._DEVNULL]: it does not return the
    [subprocess.DEVNULL] sentinel, and it opens no file (the instance
    and the open files are as before the call). *)
Theorem DevNull_subprocess_fileno_raises (cs : list call) (fs : files) :
  exec_all h cs (__init__ (VBool true), fs) = (__init__ (VBool true), fs)
  /\ fileno h (__init__ (VBool true)) fs
      = (Raise AttributeError, __init__ (VBool true), fs).
Proof. split; [apply sp_exec_all | apply sp_fileno]. Qed.

End DevNullFacts.

(** The other path of [fileno]: without [subprocess] the null device is
    opened and its descriptor returned. *)
Example DevNull_plain_fileno :
  let h := {| DevNull.os_devnull := Some "/dev/null"%string;
              DevNull.platform_system := "Linux"%string;
              DevNull.can_open := fun _ => true;
              DevNull.subprocess_DEVNULL := Some (-3) |} in
  fst (fst (DevNull.fileno h (DevNull.__init__ (DevNull.VBool false))
              {| DevNull.next_fd := 3; DevNull.open_files := ∅ |}))
  = Ok (DevNull.VInt 3).
Proof. reflexivity. Qed.

(** * Facts about fdwrap.py *)

(** Lookups in maps built by inserts and deletes at keys that arithmetic
    tells apart. *)
Ltac look :=
  repeat first
    [ rewrite lookup_insert_eq
    | rewrite lookup_insert_ne by lia
    | rewrite lookup_delete_eq
    | rewrite lookup_delete_ne by lia ];
  try reflexivity.

Section FDWrapInit.
Context {P : platform}.
Import Runtime FDWrap.

Lemma os_fdopen_done fd mode (w : world P) f w' :
  os_fdopen fd mode w = Done f w' ->
  fdopen_accepts P mode = true /\ f = next_id w /\
  w' = set_next_id
         (set_files (record Main (LFdopen fd mode) w)
            (<[next_id w := {| f_fd := fd; f_mode := mode; f_closed := false |}]> (files w)))
         (next_id w + 1).
Proof.
  unfold os_fdopen. destruct (fdopen_accepts P mode); [|discriminate].
  simpl. destruct (fdt w !! fd) as [[p en]|] eqn:E; [|discriminate].
  destruct (str_contains "+" mode).
  - unfold os_close. simpl. rewrite E. discriminate.
  - intros [= <- <-]. auto.
Qed.

(** A file object is only made for a mode without [+]. *)
Lemma os_fdopen_done_plain fd mode (w : world P) f w' :
  os_fdopen fd mode w = Done f w' -> str_contains "+" mode = false.
Proof.
  unfold os_fdopen. destruct (fdopen_accepts P mode); [|discriminate].
  simpl. destruct (fdt w !! fd) as [[p en]|] eqn:E; [|discriminate].
  destruct (str_contains "+" mode); [|done].
  unfold os_close. simpl. rewrite E. discriminate.
Qed.

(** How [os.fdopen] fails: on the mode check, with the descriptor as it
    was; on a descriptor that is not open; or on a [+] mode, with the
    descriptor closed. *)
Lemma os_fdopen_fail fd mode (w : world P) e w' :
  os_fdopen fd mode w = Fail e w' ->
  (e = ValueError /\ fdopen_accepts P mode = false
   /\ w' = record Main (LFdopen fd mode) w)
  \/ (e = OSError /\ fdt w !! fd = None /\ w' = record Main (LFdopen fd mode) w)
  \/ (e = UnsupportedOperation /\ fdopen_accepts P mode = true
      /\ str_contains "+" mode = true
      /\ os_close fd (record Main (LFdopen fd mode) w) = Done tt w').
Proof.
  unfold os_fdopen. destruct (fdopen_accepts P mode).
  - simpl. destruct (fdt w !! fd) as [[p en]|] eqn:E.
    + destruct (str_contains "+" mode); [|discriminate].
      unfold os_close. simpl. rewrite E. simpl. intros [= <- <-]. auto 10.
    + intros [= <- <-]. auto.
  - intros [= <- <-]. auto.
Qed.

Lemma os_fdopen_not_stuck fd mode (w : world P) : os_fdopen fd mode w <> Stuck.
Proof.
  unfold os_fdopen. destruct (fdopen_accepts P mode); [|discriminate].
  simpl. destruct (fdt w !! fd) as [[p en]|] eqn:E; [|discriminate].
  destruct (str_contains "+" mode); [|discriminate].
  unfold os_close. simpl. rewrite E. discriminate.
Qed.

(** The constructor keeps the caller's object, and wraps the read end in
    read mode and the write end in write mode as the exposed file. *)
Lemma init_orig_and_file (fobj : Z) (mode : string) (w : world P) (self : t) (w' : world P) :
  __init__ fobj mode w = Done self w' ->
  _orig self = fobj
  /\ files w' !! file self
     = Some {| f_fd := if str_contains "r" mode then next_fd w else next_fd w + 1;
               f_mode := mode; f_closed := false |}.
Proof.
  unfold __init__. simpl.
  destruct (str_contains "r" mode).
  - destruct (os_fdopen (next_fd w) mode _) as [f w2| |] eqn:E1; simpl; try discriminate.
    destruct (os_fdopen (next_fd w + 1) "wb" w2) as [g w3| |] eqn:E2; simpl; try discriminate.
    apply os_fdopen_done in E1 as (_ & -> & ->).
    apply os_fdopen_done in E2 as (_ & -> & ->).
    unfold Forwarder.start. simpl. intros [= <- <-]. simpl.
    split; [reflexivity | look].
  - destruct (os_fdopen (next_fd w + 1) mode _) as [f w2| |] eqn:E1; simpl; try discriminate.
    destruct (os_fdopen (next_fd w) "rb" w2) as [g w3| |] eqn:E2; simpl; try discriminate.
    apply os_fdopen_done in E1 as (_ & -> & ->).
    apply os_fdopen_done in E2 as (_ & -> & ->).
    unfold Forwarder.start. simpl. intros [= <- <-]. simpl.
    split; [reflexivity | look].
Qed.

(** C4: when the constructor succeeds, the bridge keeps the caller's
    object as [_orig], and the pipe [(r, w)] is split by direction. In
    read mode (the mode contains [r]) the exposed file is over the read
    end and the Forwarder is started with source = the caller's object,
    not owned, and sink = a file over the write end, owned. In write
    mode the exposed file is over the write end and the Forwarder is
    started with source = a file over the read end, owned, and sink =
    the caller's object, not owned. *)
Theorem init_wiring (fobj : Z) (mode : string) (w : world P) (self : t) (w' : world P) :
  __init__ fobj mode w = Done self w' ->
  _orig self = fobj /\
  fdt w' !! next_fd w = Some (next_id w, RdEnd) /\
  fdt w' !! (next_fd w + 1) = Some (next_id w, WrEnd) /\
  exists priv : Z,
    match mode_direction mode with
    | ReadMode =>
        files w' !! file self
          = Some {| f_fd := next_fd w; f_mode := mode; f_closed := false |} /\
        files w' !! priv
          = Some {| f_fd := next_fd w + 1; f_mode := "wb"; f_closed := false |} /\
        fwds w' !! _forward self
          = Some {| source := EStream fobj; sink := EFile priv;
                    ownsSource := false; ownsSink := true;
                    stop_requested := false; state := Reading |}
    | WriteMode =>
        files w' !! file self
          = Some {| f_fd := next_fd w + 1; f_mode := mode; f_closed := false |} /\
        files w' !! priv
          = Some {| f_fd := next_fd w; f_mode := "rb"; f_closed := false |} /\
        fwds w' !! _forward self
          = Some {| source := EFile priv; sink := EStream fobj;
                    ownsSource := true; ownsSink := false;
                    stop_requested := false; state := Reading |}
    end.
Proof.
  unfold __init__, mode_direction. simpl.
  destruct (str_contains "r" mode).
  - destruct (os_fdopen (next_fd w) mode _) as [f w2| |] eqn:E1; simpl; try discriminate.
    destruct (os_fdopen (next_fd w + 1) "wb" w2) as [g w3| |] eqn:E2; simpl; try discriminate.
    apply os_fdopen_done in E1 as (_ & -> & ->).
    apply os_fdopen_done in E2 as (_ & -> & ->).
    unfold Forwarder.start. simpl. intros [= <- <-]. simpl.
    split; [reflexivity|]. split; [look|]. split; [look|].
    exists (next_id w + 1 + 1). unfold Forwarder.put. simpl.
    repeat split; look.
  - destruct (os_fdopen (next_fd w + 1) mode _) as [f w2| |] eqn:E1; simpl; try discriminate.
    destruct (os_fdopen (next_fd w) "rb" w2) as [g w3| |] eqn:E2; simpl; try discriminate.
    apply os_fdopen_done in E1 as (_ & -> & ->).
    apply os_fdopen_done in E2 as (_ & -> & ->).
    unfold Forwarder.start. simpl. intros [= <- <-]. simpl.
    split; [reflexivity|]. split; [look|]. split; [look|].
    exists (next_id w + 1 + 1). unfold Forwarder.put. simpl.
    repeat split; look.
Qed.

(** The constructor cannot get stuck. *)
Lemma init_not_stuck (fobj : Z) (mode : string) (w : world P) :
  __init__ fobj mode w <> Stuck.
Proof.
  unfold __init__. simpl.
  destruct (str_contains "r" mode).
  - destruct (os_fdopen (next_fd w) mode _) as [f w2| |] eqn:E1; simpl; try discriminate.
    + destruct (os_fdopen (next_fd w + 1) "wb" w2) as [g w3| |] eqn:E2; simpl;
        try discriminate.
      destruct (os_fdopen_not_stuck _ _ _ E2).
    + destruct (os_fdopen_not_stuck _ _ _ E1).
  - destruct (os_fdopen (next_fd w + 1) mode _) as [f w2| |] eqn:E1; simpl; try discriminate.
    + destruct (os_fdopen (next_fd w) "rb" w2) as [g w3| |] eqn:E2; simpl;
        try discriminate.
      destruct (os_fdopen_not_stuck _ _ _ E2).
    + destruct (os_fdopen_not_stuck _ _ _ E1).
Qed.

(** C2 (amended): the constructor has no mode check of its own and never
    raises InvalidModeError. It creates the pipe first; a mode that
    contains [r] takes the read branch and any other mode the write
    branch. It fails only where [os.fdopen] fails, and then the pipe
    already exists, the descriptor of the other end is still open, and no
    Forwarder has been created: with the ValueError of the mode check,
    which leaves the descriptor of the exposed end open too, or, for an
    accepted mode with [+], with io.UnsupportedOperation, after
    [os.fdopen] has closed the descriptor of the exposed end. When the
    mode passes the check and has no [+], and the private end's mode
    passes the check, the constructor succeeds. *)
Theorem init_mode_handling (fobj : Z) (mode : string) (w : world P) :
  match __init__ fobj mode w with
  | Done self w' =>
      fdopen_accepts P mode = true
      /\ str_contains "+" mode = false
      /\ (files w' !! file self)
         = Some {| f_fd := if str_contains "r" mode then next_fd w else next_fd w + 1;
                   f_mode := mode; f_closed := false |}
  | Fail e w' =>
      is_Some (pipes w' !! next_id w)
      /\ fwds w' = fwds w
      /\ is_Some (fdt w' !! (if str_contains "r" mode then next_fd w + 1 else next_fd w))
      /\ ((e = ValueError
           /\ (fdopen_accepts P mode = false
               \/ fdopen_accepts P (if str_contains "r" mode then "wb" else "rb") = false)
           /\ is_Some (fdt w' !! (if str_contains "r" mode then next_fd w else next_fd w + 1)))
          \/ (e = UnsupportedOperation
              /\ fdopen_accepts P mode = true /\ str_contains "+" mode = true
              /\ fdt w' !! (if str_contains "r" mode then next_fd w else next_fd w + 1) = None))
  | Stuck => False
  end
  /\ (fdopen_accepts P mode = true -> str_contains "+" mode = false ->
      fdopen_accepts P (if str_contains "r" mode then "wb" else "rb") = true ->
      exists self w', __init__ fobj mode w = Done self w').
Proof.
  split.
  - destruct (__init__ fobj mode w) as [self w'|e w'|] eqn:E.
    + pose proof (init_orig_and_file _ _ _ _ _ E) as (_ & H).
      revert E. unfold __init__. simpl.
      destruct (str_contains "r" mode).
      * destruct (os_fdopen (next_fd w) mode _) as [f w2| |] eqn:E1; simpl; try discriminate.
        pose proof (os_fdopen_done_plain _ _ _ _ _ E1) as Hplus.
        apply os_fdopen_done in E1 as (Hacc & _ & _). intros _. tauto.
      * destruct (os_fdopen (next_fd w + 1) mode _) as [f w2| |] eqn:E1; simpl;
          try discriminate.
        pose proof (os_fdopen_done_plain _ _ _ _ _ E1) as Hplus.
        apply os_fdopen_done in E1 as (Hacc & _ & _). intros _. tauto.
    + revert E. unfold __init__. simpl.
      destruct (str_contains "r" mode).
      * destruct (os_fdopen (next_fd w) mode _) as [f w2| |] eqn:E1; simpl; try discriminate.
        -- destruct (os_fdopen (next_fd w + 1) "wb" w2) as [g w3| |] eqn:E2; simpl;
             try discriminate.
           apply os_fdopen_done in E1 as (_ & -> & ->).
           apply os_fdopen_fail in E2
             as [(-> & Hr & ->) | [(_ & Hr & _) | (_ & _ & Hr & _)]].
           ++ intros [= <- <-]. simpl.
              split; [look; eauto|]. split; [reflexivity|]. split; [look; eauto|].
              left. split; [reflexivity|]. split; [by right | look; eauto].
           ++ exfalso. revert Hr. simpl. look. discriminate.
           ++ exfalso. revert Hr. vm_compute. discriminate.
        -- apply os_fdopen_fail in E1
             as [(-> & Hr & ->) | [(_ & Hr & _) | (-> & Hacc & Hplus & Hc)]].
           ++ intros [= <- <-]. simpl.
              split; [look; eauto|]. split; [reflexivity|]. split; [look; eauto|].
              left. split; [reflexivity|]. split; [by left | look; eauto].
           ++ exfalso. revert Hr. simpl. look. discriminate.
           ++ intros [= <- <-]. revert Hc. unfold os_close. simpl. look.
              intros [= <-]. simpl.
              split; [rewrite lookup_alter_eq; look; simpl; eauto|].
              split; [reflexivity|]. split; [look; eauto|].
              right. split; [reflexivity|]. split; [done|]. split; [done | look].
      * destruct (os_fdopen (next_fd w + 1) mode _) as [f w2| |] eqn:E1; simpl;
          try discriminate.
        -- destruct (os_fdopen (next_fd w) "rb" w2) as [g w3| |] eqn:E2; simpl;
             try discriminate.
           apply os_fdopen_done in E1 as (_ & -> & ->).
           apply os_fdopen_fail in E2
             as [(-> & Hr & ->) | [(_ & Hr & _) | (_ & _ & Hr & _)]].
           ++ intros [= <- <-]. simpl.
              split; [look; eauto|]. split; [reflexivity|]. split; [look; eauto|].
              left. split; [reflexivity|]. split; [by right | look; eauto].
           ++ exfalso. revert Hr. simpl. look. discriminate.
           ++ exfalso. revert Hr. vm_compute. discriminate.
        -- apply os_fdopen_fail in E1
             as [(-> & Hr & ->) | [(_ & Hr & _) | (-> & Hacc & Hplus & Hc)]].
           ++ intros [= <- <-]. simpl.
              split; [look; eauto|]. split; [reflexivity|]. split; [look; eauto|].
              left. split; [reflexivity|]. split; [by left | look; eauto].
           ++ exfalso. revert Hr. simpl. look. discriminate.
           ++ intros [= <- <-]. revert Hc. unfold os_close. simpl. look.
              intros [= <-]. simpl.
              split; [rewrite lookup_alter_eq; look; simpl; eauto|].
              split; [reflexivity|]. split; [look; eauto|].
              right. split; [reflexivity|]. split; [done|]. split; [done | look].
    + exact (init_not_stuck _ _ _ E).
  - intros Hm Hplus Hp. unfold __init__, os_fdopen, Forwarder.start. simpl.
    destruct (str_contains "r" mode); rewrite Hm; simpl; look; simpl; rewrite Hplus;
      simpl; rewrite Hp; simpl; look; simpl; eauto.
Qed.

End FDWrapInit.

(** ** What the environment and the Forwarder's thread leave alone *)

Section Quiet.
Context {P : platform}.
Import Runtime System Inv.

Lemma quiet_refl (w : world P) : quiet w w.
Proof. split; auto. Qed.

Lemma quiet_trans (w1 w2 w3 : world P) : quiet w1 w2 -> quiet w2 w3 -> quiet w1 w3.
Proof. intros [A1 B1] [A2 B2]. split; [congruence | auto]. Qed.

Lemma quiet_same (w w' : world P) :
  log w' = log w -> files w' = files w -> quiet w w'.
Proof. intros Hl Hf. unfold quiet, file_closed. rewrite Hl, Hf. auto. Qed.

Lemma calls_of_app who (l1 l2 : list (thread * call)) :
  calls_of who (l1 ++ l2) = calls_of who l1 ++ calls_of who l2.
Proof. unfold calls_of. apply omap_app. Qed.

Lemma pipe_pull_only p n (w w' : world P) :
  settle (pipe_pull p n w) = Some w' -> exists ps, w' = set_pipes w ps.
Proof.
  unfold pipe_pull. destruct (pipes w !! p) as [q|]; [|discriminate].
  destruct (p_buf q).
  - destruct (writers_open q); [discriminate|]. intros [= <-].
    exists (pipes w). by destruct w.
  - intros [= <-]. eauto.
Qed.

Lemma pipe_push_only p c (w w' : world P) :
  settle (pipe_push p c w) = Some w' -> exists ps, w' = set_pipes w ps.
Proof.
  unfold pipe_push. destruct (pipes w !! p) as [q|]; [|discriminate].
  destruct (negb (readers_open q)).
  - intros [= <-]. exists (pipes w). by destruct w.
  - destruct (_ =? _)%nat; [discriminate|]. intros [= <-]. eauto.
Qed.

Lemma file_read_only f n (w w' : world P) :
  settle (file_read f n w) = Some w' -> exists ps, w' = set_pipes w ps.
Proof.
  unfold file_read. destruct (files w !! f) as [fo|]; [|discriminate].
  destruct (f_closed fo).
  - intros [= <-]. exists (pipes w). by destruct w.
  - destruct (fdt w !! f_fd fo) as [[p []]|]; try apply pipe_pull_only;
      intros [= <-]; exists (pipes w); by destruct w.
Qed.

Lemma file_write_only f c (w w' : world P) :
  settle (file_write f c w) = Some w' -> exists ps, w' = set_pipes w ps.
Proof.
  unfold file_write. destruct (files w !! f) as [fo|]; [|discriminate].
  destruct (f_closed fo).
  - intros [= <-]. exists (pipes w). by destruct w.
  - destruct (fdt w !! f_fd fo) as [[p []]|]; try apply pipe_push_only;
      intros [= <-]; exists (pipes w); by destruct w.
Qed.

Lemma stream_read_only o n (w w' : world P) :
  settle (stream_read o n w) = Some w' -> exists ss, w' = set_streams w ss.
Proof.
  unfold stream_read. destruct (streams w !! o) as [u|]; [|discriminate].
  destruct (u_closed u).
  - intros [= <-]. exists (streams w). by destruct w.
  - destruct (u_read P (u_st u) n) as [[bs|e] st]; intros [= <-]; unfold put_stream; eauto.
Qed.

Lemma stream_write_only o c (w w' : world P) :
  settle (stream_write o c w) = Some w' -> exists ss, w' = set_streams w ss.
Proof.
  unfold stream_write. destruct (streams w !! o) as [u|]; [|discriminate].
  destruct (u_closed u).
  - intros [= <-]. exists (streams w). by destruct w.
  - destruct (u_write P (u_st u) c) as [[bs|e] st]; intros [= <-]; unfold put_stream; eauto.
Qed.

Lemma os_close_only fd (w w' : world P) :
  settle (os_close fd w) = Some w' ->
  exists ft ps, w' = set_pipes (set_fdt w ft) ps.
Proof.
  unfold os_close. destruct (fdt w !! fd) as [[p e]|].
  - intros [= <-]. eauto.
  - intros [= <-]. exists (fdt w), (pipes w). by destruct w.
Qed.

(** What [f.close()] does to the world, whether or not the descriptor
    could be closed. *)
Lemma file_close_effect who f (w w' : world P) :
  settle (file_close who f w) = Some w' ->
  log w' = log w ++ [(who, LFileClose f)]
  /\ streams w' = streams w /\ fwds w' = fwds w
  /\ next_id w' = next_id w /\ next_fd w' = next_fd w
  /\ file_closed f w' = Some true
  /\ (forall g, g <> f -> files w' !! g = files w !! g)
  /\ (forall g, file_closed g w = Some true -> file_closed g w' = Some true).
Proof.
  unfold file_close, file_closed.
  destruct (files w !! f) as [fo|] eqn:Ef; [|discriminate].
  destruct (f_closed fo) eqn:Ec.
  - intros [= <-]. simpl. rewrite Ef. simpl. rewrite Ec. repeat split; auto.
  - intros H. apply os_close_only in H as (ft & ps & ->). simpl.
    repeat split; auto.
    + by rewrite lookup_insert_eq.
    + intros g Hg. by rewrite lookup_insert_ne.
    + intros g Hg. destruct (decide (g = f)) as [->|Hne].
      * by rewrite lookup_insert_eq.
      * by rewrite lookup_insert_ne.
Qed.

Lemma stream_close_effect who o (w w' : world P) :
  settle (stream_close who o w) = Some w' ->
  log w' = log w ++ [(who, LStreamClose o)]
  /\ files w' = files w /\ fwds w' = fwds w /\ fdt w' = fdt w /\ pipes w' = pipes w
  /\ stream_closed o w' = Some true.
Proof.
  unfold stream_close, stream_closed.
  destruct (streams w !! o) as [u|]; [|discriminate].
  intros [= <-]. simpl. rewrite lookup_insert_eq. repeat split; auto.
Qed.

Lemma ep_read_quiet ep n (w w' : world P) :
  settle (ep_read ep n w) = Some w' -> quiet w w'.
Proof.
  destruct ep; simpl; intros H.
  - apply stream_read_only in H as [ss ->]. by apply quiet_same.
  - apply file_read_only in H as [ps ->]. by apply quiet_same.
Qed.

Lemma ep_write_quiet ep c (w w' : world P) :
  settle (ep_write ep c w) = Some w' -> quiet w w'.
Proof.
  destruct ep; simpl; intros H.
  - apply stream_write_only in H as [ss ->]. by apply quiet_same.
  - apply file_write_only in H as [ps ->]. by apply quiet_same.
Qed.

Lemma ep_close_worker_quiet t ep (w : world P) :
  quiet w (Forwarder.after (ep_close (Worker t) ep w) w).
Proof.
  destruct (ep_close (Worker t) ep w) as [a w'|e w'|] eqn:E; simpl;
    try apply quiet_refl.
  all: assert (H : settle (ep_close (Worker t) ep w) = Some w') by (rewrite E; reflexivity).
  all: destruct ep; simpl in H.
  all: try (apply stream_close_effect in H as (Hl & Hf & _);
            split; [rewrite Hl, calls_of_app, app_nil_r; reflexivity
                   | unfold file_closed; rewrite Hf; auto]).
  all: apply file_close_effect in H as (Hl & _ & _ & _ & _ & _ & _ & Hm);
       split; [rewrite Hl, calls_of_app, app_nil_r; reflexivity | exact Hm].
Qed.

Lemma put_quiet t F (w : world P) : quiet w (Forwarder.put t F w).
Proof. by apply quiet_same. Qed.

Lemma leave_quiet t F r (w : world P) : quiet w (Forwarder.leave t F r w).
Proof.
  unfold Forwarder.leave.
  eapply quiet_trans; [|apply put_quiet].
  destruct (ownsSource F), (ownsSink F).
  - eapply quiet_trans; apply ep_close_worker_quiet.
  - apply ep_close_worker_quiet.
  - apply ep_close_worker_quiet.
  - apply quiet_refl.
Qed.

Lemma step_quiet t (w w' : world P) : Forwarder.step t w = Some w' -> quiet w w'.
Proof.
  unfold Forwarder.step. destruct (fwds w !! t) as [F|]; [|discriminate].
  destruct (state F) as [|rem|r].
  - destruct (stop_requested F); [intros [= <-]; apply leave_quiet|].
    destruct (ep_read (source F) (chunk_size P) w) as [c w1|e w1|] eqn:E; [| |discriminate].
    + assert (Hq : quiet w w1) by (apply (ep_read_quiet (source F) (chunk_size P)); by rewrite E).
      destruct c; intros [= <-];
        (eapply quiet_trans; [exact Hq|]); [apply leave_quiet | apply put_quiet].
    + assert (Hq : quiet w w1) by (apply (ep_read_quiet (source F) (chunk_size P)); by rewrite E).
      intros [= <-]. eapply quiet_trans; [exact Hq | apply leave_quiet].
  - destruct (stop_requested F); [intros [= <-]; apply leave_quiet|].
    destruct (ep_write (sink F) rem w) as [n w1|e w1|] eqn:E; [| |discriminate].
    + assert (Hq : quiet w w1) by (apply (ep_write_quiet (sink F) rem); by rewrite E).
      destruct (drop n rem); intros [= <-];
        (eapply quiet_trans; [exact Hq | apply put_quiet]).
    + assert (Hq : quiet w w1) by (apply (ep_write_quiet (sink F) rem); by rewrite E).
      intros [= <-]. eapply quiet_trans; [exact Hq | apply leave_quiet].
  - intros [= <-]. apply quiet_refl.
Qed.

Lemma done_world_settle {A} (m : outcome P A) w' :
  Forwarder.done_world m = Some w' -> settle m = Some w'.
Proof. destruct m; simpl; congruence. Qed.

Lemma occur_quiet ev (w w' : world P) : Forwarder.occur ev w = Some w' -> quiet w w'.
Proof.
  destruct ev; simpl.
  - apply step_quiet.
  - destruct (fdt w !! fd) as [[p []]|]; try discriminate.
    intros H%done_world_settle%pipe_push_only. destruct H as [ps ->]. by apply quiet_same.
  - destruct (fdt w !! fd) as [[p []]|]; try discriminate.
    intros H%done_world_settle%pipe_pull_only. destruct H as [ps ->]. by apply quiet_same.
  - unfold Forwarder.ext_inherit. destruct (fdt w !! fd) as [[p e]|]; [|discriminate].
    intros [= <-]. by apply quiet_same.
  - destruct (pipes w !! p) as [q|]; [|discriminate].
    destruct (0 <? p_ext_w q)%nat; [|discriminate].
    intros H%done_world_settle%pipe_push_only. destruct H as [ps ->]. by apply quiet_same.
  - destruct (pipes w !! p) as [q|]; [|discriminate].
    destruct (0 <? p_ext_r q)%nat; [|discriminate].
    intros H%done_world_settle%pipe_pull_only. destruct H as [ps ->]. by apply quiet_same.
  - unfold Forwarder.ext_close. destruct (pipes w !! p) as [q|]; [|discriminate].
    destruct (ext_count q e); [discriminate|]. intros [= <-]. by apply quiet_same.
Qed.

Lemma run_quiet evs (w w' : world P) : Forwarder.run evs w = Some w' -> quiet w w'.
Proof.
  revert w. induction evs as [|ev evs IH]; simpl; intros w.
  - intros [= <-]. apply quiet_refl.
  - destruct (Forwarder.occur ev w) as [w1|] eqn:E; [|discriminate].
    intros H. eapply quiet_trans; [apply (occur_quiet _ _ _ E) | apply IH, H].
Qed.

End Quiet.

(** ** The lifecycle calls of the bridge *)

Section Lifecycle.
Context {P : platform}.
Import Runtime System FDWrap Inv.

Lemma calls_of_record (w : world P) c :
  calls_of Main (log (record Main c w)) = calls_of Main (log w) ++ [c].
Proof. simpl. rewrite calls_of_app. reflexivity. Qed.

Lemma exited_record t who c (w : world P) :
  Forwarder.exited t (record who c w) = Forwarder.exited t w.
Proof. reflexivity. Qed.

(** The Forwarder's [join] does not raise; when it returns, the loop has
    exited with the returned result and the caller made no other call. *)
Lemma forwarder_join_done bg t (w : world P) r w' :
  Forwarder.join bg t w = Done r w' ->
  Forwarder.exited t w' = Some r
  /\ quiet (record Main (LFwdJoin t) w) w'.
Proof.
  unfold Forwarder.join.
  destruct (Forwarder.exited t (record Main (LFwdJoin t) w)) as [r0|] eqn:E0.
  - intros [= <- <-]. split; [exact E0 | apply quiet_refl].
  - destruct (Forwarder.run bg _) as [w1|] eqn:Er; [|discriminate].
    destruct (Forwarder.exited t w1) as [r1|] eqn:E1; [|discriminate].
    intros [= <- <-]. split; [exact E1 | apply (run_quiet _ _ _ Er)].
Qed.

Lemma forwarder_join_no_fail bg t (w : world P) e w' :
  Forwarder.join bg t w <> Fail e w'.
Proof.
  unfold Forwarder.join.
  destruct (Forwarder.exited t _); [discriminate|].
  destruct (Forwarder.run bg _) as [w1|]; [|discriminate].
  destruct (Forwarder.exited t w1); discriminate.
Qed.

(** Once the loop has exited, the Forwarder's [join] returns at once,
    whatever else happens or does not happen. *)
Lemma forwarder_join_exited bg t (w : world P) r :
  Forwarder.exited t w = Some r ->
  Forwarder.join bg t w = Done r (record Main (LFwdJoin t) w).
Proof.
  intros E. unfold Forwarder.join. rewrite exited_record, E. reflexivity.
Qed.

(** Closing a closed file object only records the call. *)
Lemma file_close_closed who f (w : world P) :
  file_closed f w = Some true ->
  file_close who f w = Done tt (record who (LFileClose f) w).
Proof.
  unfold file_closed, file_close. destruct (files w !! f) as [fo|]; [|discriminate].
  simpl. intros [= ->]. reflexivity.
Qed.

Lemma join_unfold bg self (w : world P) o w' :
  join bg self w = Done o w' ->
  o = _orig self
  /\ exists wa r,
       file_close Main (file self) w = Done tt wa
       /\ Forwarder.join bg (_forward self) wa = Done r w'.
Proof.
  unfold join.
  destruct (file_close Main (file self) w) as [[] wa|e wa|] eqn:Ec; simpl; try discriminate.
  destruct (Forwarder.join bg (_forward self) wa) as [r w2|e w2|] eqn:Ej; simpl;
    try discriminate.
  intros [= <- <-]. eauto.
Qed.

(** C5: for every bridge, however it was used since its construction,
    a [join()] that returns has done exactly this, in this order: closed
    the exposed file, then called the Forwarder's [join], which returned
    only once the copy loop had exited, and then returned the very object
    given to the constructor. These two are the only calls the caller's
    thread made, and the exposed file is closed from the first on. *)
Theorem join_sequence (fobj : Z) (mode : string) (w0 : world P) (self : t)
    (w1 : world P) (acts : list action) (w : world P) (bg : list event)
    (o : Z) (w' : world P) :
  __init__ fobj mode w0 = Done self w1 ->
  session self acts w1 = Some w ->
  join bg self w = Done o w' ->
  o = fobj
  /\ exists (wa : world P) (r : fresult),
       file_close Main (file self) w = Done tt wa
       /\ file_closed (file self) wa = Some true
       /\ Forwarder.join bg (_forward self) wa = Done r w'
       /\ Forwarder.exited (_forward self) w' = Some r
       /\ file_closed (file self) w' = Some true
       /\ calls_of Main (log w')
          = calls_of Main (log w) ++ [LFileClose (file self); LFwdJoin (_forward self)].
Proof.
  intros Hinit _ Hjoin.
  apply init_orig_and_file in Hinit as (Ho & _).
  apply join_unfold in Hjoin as (-> & wa & r & Hc & Hj).
  split; [exact Ho|]. exists wa, r.
  assert (Hs : settle (file_close Main (file self) w) = Some wa) by (rewrite Hc; reflexivity).
  apply file_close_effect in Hs as (Hl & _ & _ & _ & _ & Hcl & _ & _).
  destruct (forwarder_join_done _ _ _ _ _ Hj) as (He & Hq1 & Hq2).
  repeat split; auto.
  rewrite Hq1, calls_of_record, Hl, calls_of_app. simpl. rewrite <- app_assoc. reflexivity.
Qed.

(** What [f.close()] does to the descriptor table and the pipes: nothing
    when the file object was closed already; otherwise the object's
    descriptor leaves the table and the pipe end behind it is no longer
    held by this process, and that is all. *)
Lemma file_close_descriptor who f (w w' : world P) fo :
  files w !! f = Some fo ->
  settle (file_close who f w) = Some w' ->
  files w' !! f = Some {| f_fd := f_fd fo; f_mode := f_mode fo; f_closed := true |}
  /\ if f_closed fo then fdt w' = fdt w /\ pipes w' = pipes w
     else fdt w' = delete (f_fd fo) (fdt w)
          /\ pipes w' = match fdt w !! f_fd fo with
                        | Some (p, e) => alter (fun q => set_local q e false) p (pipes w)
                        | None => pipes w
                        end.
Proof.
  intros Hf. unfold file_close. rewrite Hf.
  destruct (f_closed fo) eqn:Ec.
  - intros [= <-]. simpl. split; [|done]. rewrite Hf. f_equal.
    destruct fo; simpl in *; by subst.
  - unfold os_close. simpl.
    destruct (fdt w !! f_fd fo) as [[p e]|] eqn:Ed.
    + intros [= <-]. simpl. by rewrite lookup_insert_eq.
    + intros [= <-]. simpl. rewrite lookup_insert_eq. by rewrite delete_id.
Qed.

(** C7: the scoped exit closes the exposed file and does nothing else. It
    is the only call made (no [join] and no [stop] of the Forwarder);
    every forwarder and every stream object of the caller is as before,
    and so is every other file object. The exposed file object is marked
    closed, and, when it was open, its descriptor, and no other, leaves
    the descriptor table, and the pipe end behind it, and nothing else of
    any pipe, is released; when it was closed already, the descriptor
    table and the pipes are as before. The bridge's own attributes are
    immutable references. *)
Theorem exit_closes_only_exposed_file (self : t) (w w' : world P) :
  settle (__exit__ self w) = Some w' ->
  log w' = log w ++ [(Main, LFileClose (file self))]
  /\ file_closed (file self) w' = Some true
  /\ fwds w' = fwds w
  /\ streams w' = streams w
  /\ (forall g, g <> file self -> files w' !! g = files w !! g)
  /\ next_fd w' = next_fd w /\ next_id w' = next_id w
  /\ exists fo : pyfile,
       files w !! file self = Some fo
       /\ files w' !! file self
          = Some {| f_fd := f_fd fo; f_mode := f_mode fo; f_closed := true |}
       /\ if f_closed fo then fdt w' = fdt w /\ pipes w' = pipes w
          else fdt w' = delete (f_fd fo) (fdt w)
               /\ pipes w' = match fdt w !! f_fd fo with
                             | Some (p, e) => alter (fun q => set_local q e false) p (pipes w)
                             | None => pipes w
                             end.
Proof.
  unfold __exit__. intros H.
  pose proof (file_close_effect _ _ _ _ H) as (Hl & Hs & Hf & Hi & Hn & Hc & Ho & _).
  do 7 (split; [assumption|]).
  destruct (files w !! file self) as [fo|] eqn:Ef.
  - exists fo. split; [reflexivity|]. by apply (file_close_descriptor Main (file self) w).
  - unfold file_close in H. rewrite Ef in H. discriminate.
Qed.

(** C8: after a [join()] that returned, a second [join()] returns too,
    whatever the rest of the system does or fails to do meanwhile (no
    deadlock), with the same object; it only records its two calls: no
    descriptor, pipe, file object, stream or forwarder changes (nothing is
    released twice), and the Forwarder's recorded result is the same. *)
Theorem join_twice (bg1 bg2 : list event) (self : t) (w : world P) (o : Z) (w1 : world P) :
  join bg1 self w = Done o w1 ->
  join bg2 self w1
    = Done o (record Main (LFwdJoin (_forward self))
                (record Main (LFileClose (file self)) w1))
  /\ is_Some (Forwarder.exited (_forward self) w1).
Proof.
  intros Hjoin.
  apply join_unfold in Hjoin as (-> & wa & r & Hc & Hj).
  assert (Hs : settle (file_close Main (file self) w) = Some wa) by (rewrite Hc; reflexivity).
  apply file_close_effect in Hs as (_ & _ & _ & _ & _ & Hcl & _ & _).
  destruct (forwarder_join_done _ _ _ _ _ Hj) as (He & _ & Hmono).
  split; [|eauto].
  unfold join. rewrite (file_close_closed Main (file self) w1 (Hmono _ Hcl)). simpl.
  rewrite (forwarder_join_exited bg2 _ _ r); [reflexivity|].
  rewrite exited_record. exact He.
Qed.

End Lifecycle.

(** ** The caller's object is only borrowed *)

Section Borrowed.
Context {P : platform}.
Import Runtime System FDWrap Inv.

Lemma kept_same o t (w w' : world P) :
  streams w' = streams w -> fwds w' = fwds w -> kept o t w -> kept o t w'.
Proof.
  intros Hs Hf (Hb & Hc & Ht). unfold kept, borrowed, stream_closed.
  rewrite Hs, Hf. auto.
Qed.

Lemma stream_read_kept o t o' n (w w' : world P) :
  settle (stream_read o' n w) = Some w' -> kept o t w -> kept o t w'.
Proof.
  unfold stream_read. intros H (Hb & Hc & Ht).
  destruct (streams w !! o') as [u|] eqn:Eu; [|discriminate].
  destruct (u_closed u) eqn:Ecl; [injection H as <-; done|].
  unfold kept, stream_closed in *.
  destruct (u_read P (u_st u) n) as [[bs|e] st]; injection H as <-; simpl;
    (split; [exact Hb|]); (split; [|exact Ht]);
    (destruct (decide (o = o')) as [->|Hne];
      [rewrite lookup_insert_eq; reflexivity | rewrite lookup_insert_ne by congruence; exact Hc]).
Qed.

Lemma stream_write_kept o t o' c (w w' : world P) :
  settle (stream_write o' c w) = Some w' -> kept o t w -> kept o t w'.
Proof.
  unfold stream_write. intros H (Hb & Hc & Ht).
  destruct (streams w !! o') as [u|] eqn:Eu; [|discriminate].
  destruct (u_closed u) eqn:Ecl; [injection H as <-; done|].
  unfold kept, stream_closed in *.
  destruct (u_write P (u_st u) c) as [[bs|e] st]; injection H as <-; simpl;
    (split; [exact Hb|]); (split; [|exact Ht]);
    (destruct (decide (o = o')) as [->|Hne];
      [rewrite lookup_insert_eq; reflexivity | rewrite lookup_insert_ne by congruence; exact Hc]).
Qed.

Lemma ep_read_kept o t ep n (w w' : world P) :
  settle (ep_read ep n w) = Some w' -> kept o t w -> kept o t w'.
Proof.
  destruct ep; simpl; intros H.
  - exact (stream_read_kept o t _ _ _ _ H).
  - apply file_read_only in H as [ps ->]. by apply kept_same.
Qed.

Lemma ep_write_kept o t ep c (w w' : world P) :
  settle (ep_write ep c w) = Some w' -> kept o t w -> kept o t w'.
Proof.
  destruct ep; simpl; intros H.
  - exact (stream_write_kept o t _ _ _ _ H).
  - apply file_write_only in H as [ps ->]. by apply kept_same.
Qed.

Lemma file_close_kept o t who f (w w' : world P) :
  settle (file_close who f w) = Some w' -> kept o t w -> kept o t w'.
Proof.
  intros H. apply file_close_effect in H as (_ & Hs & Hf & _).
  by apply kept_same.
Qed.

Lemma put_kept o t t' F F' (w : world P) :
  fwds w !! t' = Some F ->
  source F' = source F -> sink F' = sink F ->
  ownsSource F' = ownsSource F -> ownsSink F' = ownsSink F ->
  kept o t w -> kept o t (Forwarder.put t' F' w).
Proof.
  intros HF Hs Hk Hos Hok (Hb & Hc & Ht). split; [|split; [exact Hc|]].
  - intros t2 F2. unfold Forwarder.put. simpl.
    destruct (decide (t2 = t')) as [->|Hne].
    + rewrite lookup_insert_eq. intros [= <-]. rewrite Hs, Hk, Hos, Hok. by apply (Hb t').
    + rewrite lookup_insert_ne by congruence. apply Hb.
  - unfold Forwarder.put. simpl. destruct (decide (t = t')) as [->|Hne].
    + rewrite lookup_insert_eq. eauto.
    + by rewrite lookup_insert_ne.
Qed.

(** Closing what forwarder [F] owns never closes a stream object. *)
Lemma close_owned_kept o t who (ep : endpoint) (owned : bool) (w : world P) :
  (forall o', ep = EStream o' -> owned = false) ->
  kept o t w ->
  kept o t (if owned then Forwarder.after (ep_close who ep w) w else w).
Proof.
  intros Hown HK. destruct owned; [|exact HK].
  destruct ep as [o'|f]; [by specialize (Hown o' eq_refl)|].
  simpl. destruct (file_close who f w) as [a w1|e w1|] eqn:E; simpl; [| |exact HK].
  all: eapply (file_close_kept o t who f); [rewrite E; reflexivity | exact HK].
Qed.

Lemma leave_kept o t t' F r (w w0 : world P) :
  fwds w0 !! t' = Some F -> borrowed w0 ->
  fwds w !! t' = Some F ->
  kept o t w -> kept o t (Forwarder.leave t' F r w).
Proof.
  intros HF0 Hb0 HF HK. unfold Forwarder.leave.
  destruct (Hb0 t' F HF0) as [Hsrc Hsnk].
  set (w1 := if ownsSource F then _ else w).
  assert (HK1 : kept o t w1) by (by apply close_owned_kept).
  set (w2 := if ownsSink F then _ else w1).
  assert (HK2 : kept o t w2) by (by apply close_owned_kept).
  assert (HF2 : fwds w2 !! t' = Some F).
  { assert (H1 : fwds w1 = fwds w).
    { unfold w1. destruct (ownsSource F); [|reflexivity].
      destruct (ep_close (Worker t') (source F) w) as [a x|e x|] eqn:E; simpl; [| |reflexivity].
      all: assert (Hx : settle (ep_close (Worker t') (source F) w) = Some x)
             by (rewrite E; reflexivity).
      all: destruct (source F); simpl in Hx;
           [ by apply stream_close_effect in Hx as (_ & _ & ? & _)
           | by apply file_close_effect in Hx as (_ & _ & ? & _) ]. }
    assert (H2 : fwds w2 = fwds w1).
    { unfold w2. destruct (ownsSink F); [|reflexivity].
      destruct (ep_close (Worker t') (sink F) w1) as [a x|e x|] eqn:E; simpl; [| |reflexivity].
      all: assert (Hx : settle (ep_close (Worker t') (sink F) w1) = Some x)
             by (rewrite E; reflexivity).
      all: destruct (sink F); simpl in Hx;
           [ by apply stream_close_effect in Hx as (_ & _ & ? & _)
           | by apply file_close_effect in Hx as (_ & _ & ? & _) ]. }
    rewrite H2, H1. exact HF. }
  by apply (put_kept o t t' F).
Qed.

Lemma read_keeps_fwds ep n (w w' : world P) :
  settle (ep_read ep n w) = Some w' -> fwds w' = fwds w.
Proof.
  destruct ep; simpl; intros H.
  - by apply stream_read_only in H as [ss ->].
  - by apply file_read_only in H as [ps ->].
Qed.

Lemma write_keeps_fwds ep c (w w' : world P) :
  settle (ep_write ep c w) = Some w' -> fwds w' = fwds w.
Proof.
  destruct ep; simpl; intros H.
  - by apply stream_write_only in H as [ss ->].
  - by apply file_write_only in H as [ps ->].
Qed.

Lemma step_kept o t t' (w w' : world P) :
  Forwarder.step t' w = Some w' -> kept o t w -> kept o t w'.
Proof.
  unfold Forwarder.step. intros H HK.
  destruct (fwds w !! t') as [F|] eqn:EF; [|discriminate].
  pose proof HK as (Hb & _ & _).
  destruct (state F) as [|rem|r].
  - destruct (stop_requested F); [injection H as <-; by apply (leave_kept o t t' F _ w w)|].
    destruct (ep_read (source F) (chunk_size P) w) as [c w1|e w1|] eqn:E; [| |discriminate].
    all: assert (Hs : settle (ep_read (source F) (chunk_size P) w) = Some w1)
           by (rewrite E; reflexivity).
    all: pose proof (ep_read_kept o t _ _ _ _ Hs HK) as HK1.
    all: pose proof (read_keeps_fwds _ _ _ _ Hs) as Hf.
    all: assert (HF1 : fwds w1 !! t' = Some F) by (rewrite Hf; exact EF).
    + destruct c; injection H as <-.
      * by apply (leave_kept o t t' F _ w1 w).
      * by apply (put_kept o t t' F).
    + injection H as <-. by apply (leave_kept o t t' F _ w1 w).
  - destruct (stop_requested F); [injection H as <-; by apply (leave_kept o t t' F _ w w)|].
    destruct (ep_write (sink F) rem w) as [n w1|e w1|] eqn:E; [| |discriminate].
    all: assert (Hs : settle (ep_write (sink F) rem w) = Some w1)
           by (rewrite E; reflexivity).
    all: pose proof (ep_write_kept o t _ _ _ _ Hs HK) as HK1.
    all: pose proof (write_keeps_fwds _ _ _ _ Hs) as Hf.
    all: assert (HF1 : fwds w1 !! t' = Some F) by (rewrite Hf; exact EF).
    + destruct (drop n rem); injection H as <-; by apply (put_kept o t t' F).
    + injection H as <-. by apply (leave_kept o t t' F _ w1 w).
  - by injection H as <-.
Qed.

Lemma occur_kept o t ev (w w' : world P) :
  Forwarder.occur ev w = Some w' -> kept o t w -> kept o t w'.
Proof.
  destruct ev; simpl.
  - apply step_kept.
  - destruct (fdt w !! fd) as [[p []]|]; try discriminate.
    intros H%done_world_settle%pipe_push_only. destruct H as [ps ->]. by apply kept_same.
  - destruct (fdt w !! fd) as [[p []]|]; try discriminate.
    intros H%done_world_settle%pipe_pull_only. destruct H as [ps ->]. by apply kept_same.
  - unfold Forwarder.ext_inherit. destruct (fdt w !! fd) as [[p e]|]; [|discriminate].
    intros [= <-]. by apply kept_same.
  - destruct (pipes w !! p) as [q|]; [|discriminate].
    destruct (0 <? p_ext_w q)%nat; [|discriminate].
    intros H%done_world_settle%pipe_push_only. destruct H as [ps ->]. by apply kept_same.
  - destruct (pipes w !! p) as [q|]; [|discriminate].
    destruct (0 <? p_ext_r q)%nat; [|discriminate].
    intros H%done_world_settle%pipe_pull_only. destruct H as [ps ->]. by apply kept_same.
  - unfold Forwarder.ext_close. destruct (pipes w !! p) as [q|]; [|discriminate].
    destruct (ext_count q e); [discriminate|]. intros [= <-]. by apply kept_same.
Qed.

Lemma run_kept o t evs (w w' : world P) :
  Forwarder.run evs w = Some w' -> kept o t w -> kept o t w'.
Proof.
  revert w. induction evs as [|ev evs IH]; simpl; intros w.
  - by intros [= <-].
  - destruct (Forwarder.occur ev w) as [w1|] eqn:E; [|discriminate].
    intros H HK. apply (IH _ H). by apply (occur_kept o t ev w).
Qed.

Lemma os_fdopen_keeps fd mode (w w' : world P) :
  settle (os_fdopen fd mode w) = Some w' -> streams w' = streams w /\ fwds w' = fwds w.
Proof.
  unfold os_fdopen. destruct (fdopen_accepts P mode); [|by intros [= <-]].
  simpl. destruct (fdt w !! fd) as [[p en]|] eqn:E; [|by intros [= <-]].
  destruct (str_contains "+" mode); [|by intros [= <-]].
  unfold os_close. simpl. rewrite E. by intros [= <-].
Qed.

Lemma start_kept o src snk (osrc osnk : bool) (w : world P) t w' :
  (forall o', src = EStream o' -> osrc = false) ->
  (forall o', snk = EStream o' -> osnk = false) ->
  borrowed w -> stream_closed o w = Some false ->
  Forwarder.start src snk osrc osnk w = Done t w' ->
  kept o t w'.
Proof.
  intros Hsrc Hsnk Hb Hc [= <- <-]. split; [|split].
  - intros t F. unfold Forwarder.put. simpl.
    destruct (decide (t = next_id w)) as [->|Hne].
    + rewrite lookup_insert_eq. intros [= <-]. simpl. auto.
    + rewrite lookup_insert_ne by congruence. apply Hb.
  - exact Hc.
  - unfold Forwarder.put. simpl. rewrite lookup_insert_eq. eauto.
Qed.

Lemma init_kept fobj mode (w : world P) self w' :
  __init__ fobj mode w = Done self w' ->
  borrowed w -> stream_closed fobj w = Some false ->
  kept fobj (_forward self) w'.
Proof.
  unfold __init__. simpl. intros H Hb Hc.
  destruct (str_contains "r" mode).
  - destruct (os_fdopen (next_fd w) mode _) as [f w2| |] eqn:E1; simpl in H; try discriminate.
    destruct (os_fdopen (next_fd w + 1) "wb" w2) as [g w3| |] eqn:E2; simpl in H;
      try discriminate.
    destruct (os_fdopen_keeps _ _ _ w2 ltac:(rewrite E1; reflexivity)) as [S1 F1].
    destruct (os_fdopen_keeps _ _ _ w3 ltac:(rewrite E2; reflexivity)) as [S2 F2].
    injection H as <- <-. simpl.
    apply (fun a b c d =>
             start_kept fobj (EStream fobj) (EFile g) false true w3 _ _ a b c d eq_refl);
      [auto | intros; discriminate | |].
    + unfold borrowed. rewrite F2, F1. exact Hb.
    + unfold stream_closed. rewrite S2, S1. exact Hc.
  - destruct (os_fdopen (next_fd w + 1) mode _) as [f w2| |] eqn:E1; simpl in H;
      try discriminate.
    destruct (os_fdopen (next_fd w) "rb" w2) as [g w3| |] eqn:E2; simpl in H;
      try discriminate.
    destruct (os_fdopen_keeps _ _ _ w2 ltac:(rewrite E1; reflexivity)) as [S1 F1].
    destruct (os_fdopen_keeps _ _ _ w3 ltac:(rewrite E2; reflexivity)) as [S2 F2].
    injection H as <- <-. simpl.
    apply (fun a b c d =>
             start_kept fobj (EFile g) (EStream fobj) true false w3 _ _ a b c d eq_refl);
      [intros; discriminate | auto | |].
    + unfold borrowed. rewrite F2, F1. exact Hb.
    + unfold stream_closed. rewrite S2, S1. exact Hc.
Qed.

(** What the Forwarder's [stop] does: it never raises and never blocks,
    and changes nothing but the forwarder's stop request. *)
Lemma stop_effect t (w : world P) :
  is_Some (fwds w !! t) ->
  exists w' F F',
    Forwarder.stop t w = Done tt w'
    /\ log w' = log w ++ [(Main, LFwdStop t)]
    /\ streams w' = streams w /\ files w' = files w
    /\ fdt w' = fdt w /\ pipes w' = pipes w
    /\ fwds w !! t = Some F
    /\ fwds w' = <[t := F']> (fwds w)
    /\ source F' = source F /\ sink F' = sink F
    /\ ownsSource F' = ownsSource F /\ ownsSink F' = ownsSink F
    /\ state F' = state F
    /\ (stop_requested F' = true \/ exists r, state F' = Exited r).
Proof.
  intros [F HF]. unfold Forwarder.stop. rewrite HF.
  destruct (state F) as [|rem|r] eqn:Es.
  - eexists _, F, (Forwarder.set_stop F). repeat split; auto.
  - eexists _, F, (Forwarder.set_stop F). repeat split; auto.
  - eexists _, F, F. repeat split; eauto.
    simpl. by rewrite insert_id.
Qed.

(** After a stop request on a loop that has not exited, the loop's next
    step is its exit with the result [Stopped], which closes what the
    Forwarder owns. *)
Lemma stop_then_step_leaves t (w w1 : world P) F :
  fwds w !! t = Some F ->
  (forall r, state F <> Exited r) ->
  Forwarder.stop t w = Done tt w1 ->
  Forwarder.step t w1
    = Some (Forwarder.leave t (Forwarder.set_stop F) Stopped w1)
  /\ Forwarder.exited t (Forwarder.leave t (Forwarder.set_stop F) Stopped w1) = Some Stopped.
Proof.
  intros HF Hne. unfold Forwarder.stop. rewrite HF.
  destruct (state F) as [|rem|r] eqn:Es; [| |by destruct (Hne r)];
    intros [= <-]; (split;
      [ unfold Forwarder.step, Forwarder.put; simpl; rewrite lookup_insert_eq; simpl;
        by rewrite Es
      | unfold Forwarder.exited, Forwarder.leave, Forwarder.put; simpl;
        by rewrite lookup_insert_eq ]).
Qed.

Lemma stop_kept o t t' (w w' : world P) :
  settle (Forwarder.stop t' w) = Some w' -> kept o t w -> kept o t w'.
Proof.
  intros H HK. destruct (fwds w !! t') as [F0|] eqn:E0.
  - destruct (stop_effect t' w) as (w2 & F & F' & Hs & _ & Hst & _ & _ & _ & HF & Hf & A & B & C & D & _);
      [eauto|].
    rewrite Hs in H. injection H as <-.
    destruct HK as (Hb & Hc & Ht). split; [|split].
    + intros t2 F2. rewrite Hf. destruct (decide (t2 = t')) as [->|Hne].
      * rewrite lookup_insert_eq. intros [= <-]. rewrite A, B, C, D. by apply (Hb t').
      * rewrite lookup_insert_ne by congruence. apply Hb.
    + unfold stream_closed. rewrite Hst. exact Hc.
    + rewrite Hf. destruct (decide (t = t')) as [->|Hne].
      * rewrite lookup_insert_eq. eauto.
      * by rewrite lookup_insert_ne.
  - unfold Forwarder.stop in H. rewrite E0 in H. discriminate.
Qed.

Lemma act_kept o t self a (w w' : world P) :
  closes_object a = false ->
  act self a w = Some w' -> kept o t w -> kept o t w'.
Proof.
  destruct a; simpl; try discriminate; intros _.
  - apply occur_kept.
  - by intros [= <-].
  - apply file_close_kept.
  - unfold fileno, file_fileno. destruct (files w !! file self) as [fo|]; [|discriminate].
    destruct (f_closed fo); by intros [= <-].
  - unfold detach. intros H. apply (stop_kept o t (_forward self) w).
    destruct (Forwarder.stop (_forward self) w) as [[] w1|e w1|]; simpl in *; congruence.
  - unfold join. intros H HK.
    destruct (file_close Main (file self) w) as [[] wa|e wa|] eqn:Ec; simpl in H;
      try discriminate.
    + assert (HKa : kept o t wa)
        by (apply (file_close_kept o t Main (file self) w); [by rewrite Ec | exact HK]).
      destruct (Forwarder.join bg (_forward self) wa) as [r w2|e w2|] eqn:Ej; simpl in H;
        try discriminate.
      * injection H as <-. revert Ej. unfold Forwarder.join.
        destruct (Forwarder.exited _ _); [intros [= _ <-]; by apply (kept_same o t wa)|].
        destruct (Forwarder.run bg _) as [w1|] eqn:Er; [|discriminate].
        destruct (Forwarder.exited _ w1); [|discriminate].
        intros [= _ <-]. apply (run_kept o t _ _ _ Er). by apply (kept_same o t wa).
      * by destruct (forwarder_join_no_fail _ _ _ _ _ Ej).
    + injection H as <-.
      apply (file_close_kept o t Main (file self) w); [by rewrite Ec | exact HK].
Qed.

Lemma session_kept o t self acts (w w' : world P) :
  forallb (fun a => negb (closes_object a)) acts = true ->
  session self acts w = Some w' -> kept o t w -> kept o t w'.
Proof.
  revert w. induction acts as [|a acts IH]; simpl; intros w Hn.
  - by intros [= <-].
  - apply andb_prop in Hn as [Ha Hn]. apply negb_true_iff in Ha.
    destruct (act self a w) as [w1|] eqn:E; [|discriminate].
    intros H HK. apply (IH _ Hn H). by apply (act_kept o t self a w).
Qed.

(** C6: for every bridge built over an open stream object that no
    forwarder owns, and used in any way short of [close()]: [detach()]
    does not raise; its one call is the Forwarder's [stop], after which
    the stop request is recorded (or the loop had already exited); it
    returns the object given to the constructor; and that object is not
    closed, neither by the call nor by anything the Forwarder or the
    environment does afterwards. This covers a read-mode bridge whose
    exposed end was closed before the source was exhausted. *)
Theorem detach_returns_unclosed (fobj : Z) (mode : string) (w0 : world P) (self : t)
    (w1 : world P) (acts : list action) (w : world P) :
  borrowed w0 ->
  stream_closed fobj w0 = Some false ->
  __init__ fobj mode w0 = Done self w1 ->
  forallb (fun a => negb (closes_object a)) acts = true ->
  session self acts w1 = Some w ->
  exists w' : world P,
    detach self w = Done fobj w'
    /\ log w' = log w ++ [(Main, LFwdStop (_forward self))]
    /\ streams w' = streams w
    /\ stream_closed fobj w' = Some false
    /\ (exists F, fwds w' !! _forward self = Some F
                  /\ (stop_requested F = true \/ exists r, state F = Exited r))
    /\ (forall evs w'', Forwarder.run evs w' = Some w'' ->
          stream_closed fobj w'' = Some false).
Proof.
  intros Hb Hc Hinit Hacts Hsess.
  pose proof (init_kept _ _ _ _ _ Hinit Hb Hc) as HK1.
  apply init_orig_and_file in Hinit as (Ho & _).
  pose proof (session_kept _ _ _ _ _ _ Hacts Hsess HK1) as HK.
  destruct HK as (Hbw & Hcw & Htw).
  destruct (stop_effect (_forward self) w Htw)
    as (w' & F & F' & Hs & Hl & Hst & _ & _ & _ & HF & Hf & _ & _ & _ & _ & _ & Hreq).
  exists w'. unfold detach. rewrite Hs. simpl. rewrite Ho.
  assert (HK' : kept fobj (_forward self) w').
  { apply (stop_kept fobj (_forward self) (_forward self) w); [by rewrite Hs | done]. }
  repeat split; auto.
  - apply HK'.
  - exists F'. rewrite Hf, lookup_insert_eq. auto.
  - intros evs w'' Hr. by apply (run_kept fobj (_forward self) _ _ _ Hr) in HK' as (_ & ? & _).
Qed.

End Borrowed.

(** ** A write-mode bridge in a fresh process *)

Section Delivery.
Context {P : platform}.
Import Runtime System FDWrap Inv.
Variable mode : string.

Local Abbreviation exposed_file := (Fresh.exposed_file mode).
Local Abbreviation private_file := Fresh.private_file.
Local Abbreviation fdt_of := Fresh.fdt_of.
Local Abbreviation files_of := (Fresh.files_of mode).
Local Abbreviation shape := (@Fresh.shape P mode).
Local Abbreviation flow := (@Fresh.flow P).
Local Abbreviation good := (@Fresh.good P mode).

Lemma world_ext (w1 w2 : world P) :
  fdt w1 = fdt w2 -> pipes w1 = pipes w2 -> files w1 = files w2 ->
  streams w1 = streams w2 -> fwds w1 = fwds w2 ->
  next_fd w1 = next_fd w2 -> next_id w1 = next_id w2 -> log w1 = log w2 ->
  w1 = w2.
Proof. destruct w1, w2. simpl. by intros -> -> -> -> -> -> -> ->. Qed.

Lemma fdt_of_3 lr lw : fdt_of lr lw !! 3 = if lr then Some (1, RdEnd) else None.
Proof. destruct lr, lw; reflexivity. Qed.

Lemma fdt_of_4 lr lw : fdt_of lr lw !! 4 = if lw then Some (1, WrEnd) else None.
Proof. destruct lr, lw; reflexivity. Qed.

Lemma fdt_of_delete_3 lr lw : delete 3 (fdt_of lr lw) = fdt_of false lw.
Proof.
  apply map_eq. intros k. destruct (decide (k = 3)) as [->|H3].
  - rewrite lookup_delete_eq. by destruct lw.
  - rewrite lookup_delete_ne by done. destruct lr, lw; unfold fdt_of; simpl; try done.
    + destruct (decide (k = 4)) as [->|H4]; [done|].
      rewrite !lookup_insert_ne by done. done.
    + by rewrite lookup_insert_ne.
Qed.

Lemma fdt_of_delete_4 lr lw : delete 4 (fdt_of lr lw) = fdt_of lr false.
Proof.
  apply map_eq. intros k. destruct (decide (k = 4)) as [->|H4].
  - rewrite lookup_delete_eq. by destruct lr.
  - rewrite lookup_delete_ne by done. destruct lr, lw; unfold fdt_of; simpl; try done.
    all: by rewrite lookup_insert_ne.
Qed.

Lemma files_of_2 cx cp : files_of cx cp !! 2 = Some (exposed_file cx).
Proof. reflexivity. Qed.

Lemma files_of_3 cx cp : files_of cx cp !! 3 = Some (private_file cp).
Proof. reflexivity. Qed.

Lemma files_of_set_2 cx cp c : <[2 := exposed_file c]> (files_of cx cp) = files_of c cp.
Proof.
  unfold files_of. rewrite insert_insert_ne by done. by rewrite insert_singleton_eq.
Qed.

Lemma files_of_set_3 cx cp c : <[3 := private_file c]> (files_of cx cp) = files_of cx c.
Proof. unfold files_of. by rewrite insert_insert_eq. Qed.

Lemma pipe_push_shape c q F u cx cp nfd nid lg :
  pipe_push 1 c (shape q F u cx cp nfd nid lg) =
    if negb (readers_open q) then Fail BrokenPipeError (shape q F u cx cp nfd nid lg)
    else if (p_cap q - length (p_buf q) =? 0)%nat then Stuck
    else
      let k := ((p_cap q - length (p_buf q)) `min` length c)%nat in
      Done k (shape (set_buf q (p_buf q ++ take k c) (p_written q ++ take k c))
                F u cx cp nfd nid lg).
Proof.
  unfold pipe_push. simpl. rewrite lookup_singleton_eq.
  destruct (negb (readers_open q)); [reflexivity|].
  destruct (_ =? _)%nat; [reflexivity|].
  simpl. unfold shape, set_pipes. simpl. by rewrite insert_singleton_eq.
Qed.

Lemma pipe_pull_shape n q F u cx cp nfd nid lg :
  pipe_pull 1 n (shape q F u cx cp nfd nid lg) =
    match p_buf q with
    | [] => if writers_open q then Stuck else Done [] (shape q F u cx cp nfd nid lg)
    | _ :: _ =>
        Done (take n (p_buf q))
          (shape (set_buf q (drop n (p_buf q)) (p_written q)) F u cx cp nfd nid lg)
    end.
Proof.
  unfold pipe_pull. simpl. rewrite lookup_singleton_eq.
  destruct (p_buf q); [reflexivity|].
  unfold shape, set_pipes. simpl. by rewrite insert_singleton_eq.
Qed.

Lemma other_pipe_shape p q F u cx cp nfd nid lg :
  p <> 1 -> pipes (shape q F u cx cp nfd nid lg) !! p = None.
Proof. intros Hp. simpl. by rewrite lookup_singleton_ne. Qed.

Lemma file_read_shape n q F u cx cp nfd nid lg :
  file_read 3 n (shape q F u cx cp nfd nid lg) =
    if cp then Fail ValueError (shape q F u cx cp nfd nid lg)
    else if p_loc_r q then pipe_pull 1 n (shape q F u cx cp nfd nid lg)
    else Fail OSError (shape q F u cx cp nfd nid lg).
Proof.
  unfold file_read. simpl files. rewrite files_of_3. simpl f_closed.
  destruct cp; [reflexivity|]. simpl f_fd. simpl fdt. rewrite fdt_of_3.
  destruct (p_loc_r q); reflexivity.
Qed.

Lemma stream_write_shape c q F u cx cp nfd nid lg :
  stream_write 0 c (shape q F u cx cp nfd nid lg) =
    if u_closed u then Fail ValueError (shape q F u cx cp nfd nid lg)
    else
      match u_write P (u_st u) c with
      | (Ok n, st) =>
          Done n (shape q F
                    {| u_st := st; u_closed := false;
                       u_received := u_received u ++ take n c;
                       u_supplied := u_supplied u |} cx cp nfd nid lg)
      | (Raise e, st) =>
          Fail e (shape q F
                    {| u_st := st; u_closed := false; u_received := u_received u;
                       u_supplied := u_supplied u |} cx cp nfd nid lg)
      end.
Proof.
  unfold stream_write. simpl. rewrite lookup_singleton_eq.
  destruct (u_closed u); [reflexivity|].
  destruct (u_write P (u_st u) c) as [[n|e] st];
    unfold shape, put_stream, set_streams; simpl; by rewrite insert_singleton_eq.
Qed.

Lemma os_close_shape_4 q F u cx cp nfd nid lg :
  os_close 4 (shape q F u cx cp nfd nid lg) =
    if p_loc_w q then Done tt (shape (set_local q WrEnd false) F u cx cp nfd nid lg)
    else Fail OSError (shape q F u cx cp nfd nid lg).
Proof.
  unfold os_close. simpl fdt. rewrite fdt_of_4.
  destruct (p_loc_w q) eqn:E; [|reflexivity].
  unfold shape, set_pipes, set_fdt. simpl.
  by rewrite fdt_of_delete_4, alter_singleton_eq.
Qed.

Lemma os_close_shape_3 q F u cx cp nfd nid lg :
  os_close 3 (shape q F u cx cp nfd nid lg) =
    if p_loc_r q then Done tt (shape (set_local q RdEnd false) F u cx cp nfd nid lg)
    else Fail OSError (shape q F u cx cp nfd nid lg).
Proof.
  unfold os_close. simpl fdt. rewrite fdt_of_3.
  destruct (p_loc_r q) eqn:E; [|reflexivity].
  unfold shape, set_pipes, set_fdt. simpl.
  by rewrite fdt_of_delete_3, alter_singleton_eq.
Qed.

Lemma file_close_shape_2 who q F u cx cp nfd nid lg :
  file_close who 2 (shape q F u cx cp nfd nid lg) =
    if cx then Done tt (shape q F u cx cp nfd nid (lg ++ [(who, LFileClose 2)]))
    else if p_loc_w q then
      Done tt (shape (set_local q WrEnd false) F u true cp nfd nid
                 (lg ++ [(who, LFileClose 2)]))
    else Fail OSError (shape q F u true cp nfd nid (lg ++ [(who, LFileClose 2)])).
Proof.
  unfold file_close. simpl files. rewrite files_of_2. simpl f_closed.
  destruct cx; [reflexivity|].
  simpl f_fd. simpl f_mode.
  change (set_files _ _) with
    (set_files (shape q F u false cp nfd nid (lg ++ [(who, LFileClose 2)]))
       (<[2 := exposed_file true]> (files_of false cp))).
  rewrite files_of_set_2.
  change (set_files _ _) with (shape q F u true cp nfd nid (lg ++ [(who, LFileClose 2)])).
  apply os_close_shape_4.
Qed.

Lemma file_close_shape_3 who q F u cx cp nfd nid lg :
  file_close who 3 (shape q F u cx cp nfd nid lg) =
    if cp then Done tt (shape q F u cx cp nfd nid (lg ++ [(who, LFileClose 3)]))
    else if p_loc_r q then
      Done tt (shape (set_local q RdEnd false) F u cx true nfd nid
                 (lg ++ [(who, LFileClose 3)]))
    else Fail OSError (shape q F u cx true nfd nid (lg ++ [(who, LFileClose 3)])).
Proof.
  unfold file_close. simpl files. rewrite files_of_3. simpl f_closed.
  destruct cp; [reflexivity|].
  simpl f_fd. simpl f_mode.
  change (set_files _ _) with
    (set_files (shape q F u cx false nfd nid (lg ++ [(who, LFileClose 3)]))
       (<[3 := private_file true]> (files_of cx false))).
  rewrite files_of_set_3.
  change (set_files _ _) with (shape q F u cx true nfd nid (lg ++ [(who, LFileClose 3)])).
  apply os_close_shape_3.
Qed.

Lemma put_shape F' q F u cx cp nfd nid lg :
  Forwarder.put 4 F' (shape q F u cx cp nfd nid lg) = shape q F' u cx cp nfd nid lg.
Proof.
  unfold Forwarder.put, shape, set_fwds. simpl. by rewrite insert_singleton_eq.
Qed.

Lemma ext_inherit_shape q F u cx cp nfd nid lg :
  Forwarder.ext_inherit 4 (shape q F u cx cp nfd nid lg) =
    if p_loc_w q
    then Some (shape (set_ext q WrEnd (S (p_ext_w q))) F u cx cp nfd nid lg)
    else None.
Proof.
  unfold Forwarder.ext_inherit. simpl fdt. rewrite fdt_of_4.
  destruct (p_loc_w q); [|reflexivity].
  unfold shape, set_pipes. simpl. by rewrite alter_singleton_eq.
Qed.

Lemma ext_close_shape e q F u cx cp nfd nid lg :
  Forwarder.ext_close 1 e (shape q F u cx cp nfd nid lg) =
    match ext_count q e with
    | O => None
    | S n => Some (shape (set_ext q e n) F u cx cp nfd nid lg)
    end.
Proof.
  unfold Forwarder.ext_close. simpl. rewrite lookup_singleton_eq.
  destruct (ext_count q e) eqn:E; [reflexivity|].
  unfold shape, set_pipes. simpl. rewrite insert_singleton_eq.
  by destruct e.
Qed.

Hypothesis chunk_positive : (0 < chunk_size P)%nat.
Hypothesis sink_accepts : forall st c, exists n st', u_write P st c = (Ok n, st').

Lemma step_good (w w' : world P) :
  good w -> Forwarder.step 4 w = Some w' -> good w'.
Proof.
  intros [q F u cx cp nfd nid lg Hsrc Hsnk Hos Hok Hstop Hcl Hext Hcx Hflow].
  unfold Forwarder.step. simpl fwds. rewrite lookup_singleton_eq.
  destruct (state F) as [|rem|r] eqn:Es; simpl in Hflow.
  - destruct Hflow as (Hw & -> & Hlr).
    rewrite Hstop, Hsrc. simpl ep_read. rewrite file_read_shape, Hlr, pipe_pull_shape.
    destruct (p_buf q) as [|b l] eqn:Eb.
    + destruct (writers_open q) eqn:Ew; [discriminate|].
      intros [= <-]. unfold Forwarder.leave. rewrite Hos, Hok, Hsrc. simpl ep_close.
      rewrite file_close_shape_3, Hlr. simpl Forwarder.after. rewrite put_shape.
      constructor; simpl; auto.
      rewrite Hw, app_nil_r. auto.
    + destruct (chunk_size P) as [|m] eqn:En; [lia|].
      simpl take. intros [= <-]. rewrite put_shape.
      constructor; simpl; auto.
      rewrite Hw. repeat split; auto; try discriminate. by rewrite take_drop.
  - destruct Hflow as (Hw & -> & Hlr & Hrem).
    rewrite Hstop, Hsnk. simpl ep_write. rewrite stream_write_shape, Hcl.
    destruct (sink_accepts (u_st u) rem) as (n & st' & ->).
    destruct (drop n rem) as [|b rest] eqn:Ed; intros [= <-]; rewrite put_shape;
      constructor; simpl; auto; repeat split; auto; try discriminate; rewrite Hw.
    + rewrite <- (take_drop n rem) at 1. rewrite Ed, app_nil_r. by rewrite app_assoc.
    + rewrite <- (take_drop n rem) at 1. rewrite Ed. by rewrite <- !app_assoc.
  - intros [= <-]. constructor; auto. by rewrite Es.
Qed.

Lemma record_shape who c q F u cx cp nfd nid lg :
  record who c (shape q F u cx cp nfd nid lg) = shape q F u cx cp nfd nid (lg ++ [(who, c)]).
Proof. reflexivity. Qed.

Lemma good_record who c (w : world P) : good w -> good (record who c w).
Proof. intros []. rewrite record_shape. by constructor. Qed.

(** A write into the pipe keeps the bytes in transit in order; it cannot
    happen once the loop has seen end-of-data. *)
Lemma push_good c (w w' : world P) :
  good w ->
  (forall q, pipes w !! 1 = Some q -> writers_open q = true) ->
  Forwarder.done_world (pipe_push 1 c w) = Some w' ->
  good w'.
Proof.
  intros [q F u cx cp nfd nid lg Hsrc Hsnk Hos Hok Hstop Hcl Hext Hcx Hflow] Hopen.
  specialize (Hopen q (lookup_singleton_eq _ _)).
  rewrite pipe_push_shape.
  destruct (negb (readers_open q)); [discriminate|].
  destruct (_ =? _)%nat; [discriminate|].
  simpl. intros [= <-].
  constructor; simpl; auto.
  destruct (state F) as [|rem|r]; simpl in *.
  - destruct Hflow as (Hw & ? & ?). repeat split; auto.
    rewrite Hw. by rewrite app_assoc.
  - destruct Hflow as (Hw & ? & ? & ?). repeat split; auto.
    rewrite Hw. by rewrite <- !app_assoc.
  - destruct Hflow as (_ & _ & Hno). congruence.
Qed.

Lemma flow_same_data s q q' u cp :
  p_buf q' = p_buf q -> p_written q' = p_written q -> p_loc_r q' = p_loc_r q ->
  (writers_open q = false -> writers_open q' = false) ->
  flow s q u cp -> flow s q' u cp.
Proof.
  intros Hb Hw Hr Ho. destruct s; simpl; rewrite ?Hb, ?Hw, ?Hr; tauto.
Qed.

Lemma occur_good ev (w w' : world P) :
  event_on 4 ev = true -> good w -> Forwarder.occur ev w = Some w' -> good w'.
Proof.
  intros Hon Hg. destruct ev as [t|fd c|fd n|fd|p c|p n|p e]; simpl in *.
  - destruct (decide (t = 4)) as [->|Hne]; [by apply step_good|].
    destruct Hg. unfold Forwarder.step. simpl fwds. by rewrite lookup_singleton_ne.
  - apply bool_decide_eq_true in Hon as ->.
    destruct (fdt w !! 4) as [[p []]|] eqn:E; try discriminate.
    assert (p = 1 /\ forall q, pipes w !! 1 = Some q -> writers_open q = true) as [-> Ho].
    { destruct Hg as [q]. simpl in E. rewrite fdt_of_4 in E.
      destruct (p_loc_w q) eqn:El; [|discriminate]. injection E as <-. split; [done|].
      simpl. rewrite lookup_singleton_eq. intros ? [= <-]. unfold writers_open. by rewrite El. }
    by apply push_good.
  - apply bool_decide_eq_true in Hon as ->. destruct Hg as [q]. simpl fdt.
    rewrite fdt_of_4. by destruct (p_loc_w q).
  - apply bool_decide_eq_true in Hon as ->.
    destruct Hg as [q F u cx cp nfd nid lg Hsrc Hsnk Hos Hok Hstop Hcl Hext Hcx Hflow].
    rewrite ext_inherit_shape. destruct (p_loc_w q) eqn:El; [|discriminate].
    intros [= <-]. constructor; auto; [by simpl; rewrite El|].
    apply (flow_same_data _ q); auto.
    unfold writers_open. rewrite El. discriminate.
  - destruct (decide (p = 1)) as [->|Hne].
    + destruct (pipes w !! 1) as [q|] eqn:E; [|discriminate].
      destruct (0 <? p_ext_w q)%nat eqn:Ex; [|discriminate].
      apply push_good; [done|]. intros q' Hq'. rewrite Hq' in E. injection E as ->.
      unfold writers_open. rewrite Ex. by destruct (p_loc_w q).
    + destruct Hg. by rewrite other_pipe_shape.
  - destruct (decide (p = 1)) as [->|Hne].
    + destruct Hg as [q F u cx cp nfd nid lg Hsrc Hsnk Hos Hok Hstop Hcl Hext Hcx Hflow].
      simpl pipes. rewrite lookup_singleton_eq, Hext. discriminate.
    + destruct Hg. by rewrite other_pipe_shape.
  - destruct (decide (p = 1)) as [->|Hne].
    + destruct Hg as [q F u cx cp nfd nid lg Hsrc Hsnk Hos Hok Hstop Hcl Hext Hcx Hflow].
      rewrite ext_close_shape. destruct e; simpl ext_count.
      * rewrite Hext. discriminate.
      * destruct (p_ext_w q) as [|k] eqn:Ek; [discriminate|]. intros [= <-].
        constructor; auto.
        apply (flow_same_data _ q); auto.
        unfold writers_open. rewrite Ek. simpl. by destruct (p_loc_w q).
    + destruct Hg. unfold Forwarder.ext_close. by rewrite other_pipe_shape.
Qed.

Lemma run_good evs (w w' : world P) :
  forallb (event_on 4) evs = true -> good w -> Forwarder.run evs w = Some w' -> good w'.
Proof.
  revert w. induction evs as [|ev evs IH]; simpl; intros w Hon Hg.
  - by intros [= <-].
  - apply andb_prop in Hon as [H1 H2].
    destruct (Forwarder.occur ev w) as [w1|] eqn:E; [|discriminate].
    apply IH; [done|]. by apply (occur_good ev w).
Qed.

Lemma exit_good who (w w' : world P) :
  good w -> settle (file_close who 2 w) = Some w' -> good w'.
Proof.
  intros [q F u cx cp nfd nid lg Hsrc Hsnk Hos Hok Hstop Hcl Hext Hcx Hflow].
  rewrite file_close_shape_2.
  destruct cx; [intros [= <-]; by constructor|].
  destruct (p_loc_w q) eqn:El; [|discriminate].
  intros [= <-]. constructor; auto.
  apply (flow_same_data _ q); auto.
  unfold writers_open. rewrite El. discriminate.
Qed.

Lemma act_good a (w w' : world P) :
  calm 4 a = true -> good w ->
  act {| _orig := 0; file := 2; _forward := 4 |} a w = Some w' -> good w'.
Proof.
  intros Hcalm Hg. destruct a as [ev| | | | | |bg]; simpl in *; try discriminate.
  - by apply occur_good.
  - by intros [= <-].
  - by apply exit_good.
  - unfold fileno, file_fileno. simpl.
    destruct (files w !! 2) as [fo|]; [|discriminate].
    destruct (f_closed fo); by intros [= <-].
  - unfold join. simpl.
    destruct (file_close Main 2 w) as [[] wa|e wa|] eqn:Ec; simpl; try discriminate.
    + assert (Hga : good wa) by (apply (exit_good Main w); [done | by rewrite Ec]).
      unfold Forwarder.join.
      destruct (Forwarder.exited 4 _); simpl; [intros [= <-]; by apply good_record|].
      destruct (Forwarder.run bg _) as [w1|] eqn:Er; [|discriminate].
      assert (Hg1 : good w1) by (apply (run_good bg _ _ Hcalm (good_record _ _ _ Hga) Er)).
      destruct (Forwarder.exited 4 w1); simpl; [|discriminate].
      by intros [= <-].
    + intros [= <-]. apply (exit_good Main w); [done | by rewrite Ec].
Qed.

Lemma session_good acts (w w' : world P) :
  forallb (calm 4) acts = true -> good w ->
  session {| _orig := 0; file := 2; _forward := 4 |} acts w = Some w' -> good w'.
Proof.
  revert w. induction acts as [|a acts IH]; simpl; intros w Hc Hg.
  - by intros [= <-].
  - apply andb_prop in Hc as [H1 H2].
    destruct (act _ a w) as [w1|] eqn:E; [|discriminate].
    apply IH; [done|]. by apply (act_good a w).
Qed.

Lemma init_good (st : ustate P) self (w0 : world P) :
  str_contains "r" mode = false ->
  __init__ 0 mode (boot st) = Done self w0 ->
  self = {| _orig := 0; file := 2; _forward := 4 |} /\ good w0.
Proof.
  intros Hm. unfold __init__, os_pipe, os_fdopen, Forwarder.start. simpl. rewrite Hm.
  simpl. destruct (fdopen_accepts P mode); [|discriminate].
  rewrite lookup_insert_eq. simpl.
  destruct (str_contains "+" mode).
  { unfold os_close. simpl. rewrite lookup_insert_eq. discriminate. }
  simpl.
  destruct (fdopen_accepts P "rb"); [|discriminate].
  rewrite lookup_insert_ne, lookup_insert_eq by done. simpl.
  intros [= <- <-]. split; [reflexivity|].
  match goal with |- good ?x => set (w := x) end.
  assert (E : w = shape
            {| p_buf := []; p_written := []; p_cap := pipe_capacity P;
               p_loc_r := true; p_loc_w := true; p_ext_r := 0; p_ext_w := 0 |}
            {| source := EFile 3; sink := EStream 0; ownsSource := true;
               ownsSink := false; stop_requested := false; state := Reading |}
            {| u_st := st; u_closed := false; u_received := []; u_supplied := [] |}
            false false (next_fd w) (next_id w) (log w)).
  { apply world_ext; reflexivity. }
  rewrite E.
  constructor; simpl; auto.
Qed.

(** *** The join returns once the writers are gone *)

Lemma step_drains (w : world P) :
  (forall st c, c <> [] -> exists n st', u_write P st c = (Ok (S n), st')) ->
  good w -> Fresh.no_writer w ->
  exists w', Forwarder.step 4 w = Some w' /\ good w' /\ Fresh.no_writer w'
             /\ (Fresh.steps_left w' < Fresh.steps_left w \/ Fresh.steps_left w' = 0)%nat.
Proof.
  intros Hprog Hg Hnw.
  assert (Hkey : exists w', Forwarder.step 4 w = Some w' /\ Fresh.no_writer w'
             /\ (Fresh.steps_left w' < Fresh.steps_left w \/ Fresh.steps_left w' = 0)%nat).
  { destruct Hg as [q F u cx cp nfd nid lg Hsrc Hsnk Hos Hok Hstop Hcl Hext Hcx Hflow].
    specialize (Hnw q (lookup_singleton_eq _ _)).
    assert (Hnw' : forall F' u' cx' cp' lg',
              Fresh.no_writer (shape q F' u' cx' cp' nfd nid lg')).
    { intros. intros ?. simpl. rewrite lookup_singleton_eq. by intros [= <-]. }
    unfold Forwarder.step, Fresh.steps_left.
    simpl fwds. simpl pipes. rewrite !lookup_singleton_eq.
    destruct (state F) as [|rem|r] eqn:Es; simpl in Hflow.
    - destruct Hflow as (Hw & -> & Hlr).
      rewrite Hstop, Hsrc. simpl ep_read. rewrite file_read_shape, Hlr, pipe_pull_shape.
      destruct (p_buf q) as [|b l] eqn:Eb.
      + rewrite Hnw. eexists. split; [reflexivity|].
        unfold Forwarder.leave. rewrite Hos, Hok, Hsrc. simpl ep_close.
        rewrite file_close_shape_3, Hlr. simpl Forwarder.after. rewrite put_shape.
        split.
        * intros ?. simpl. rewrite lookup_singleton_eq. by intros [= <-].
        * simpl. rewrite !lookup_singleton_eq. simpl. lia.
      + assert (exists k, chunk_size P = S k) as [k Hk]
          by (destruct (chunk_size P); [lia | eauto]).
        rewrite Hk. simpl take. eexists. split; [reflexivity|]. rewrite put_shape.
        split.
        * intros ?. simpl. rewrite lookup_singleton_eq. by intros [= <-].
        * simpl. rewrite !lookup_singleton_eq. simpl.
          rewrite length_take, length_drop. lia.
    - destruct Hflow as (Hw & -> & Hlr & Hrem).
      rewrite Hstop, Hsnk. simpl ep_write. rewrite stream_write_shape, Hcl.
      destruct (Hprog (u_st u) rem Hrem) as (n & st' & ->).
      destruct (drop (S n) rem) as [|b rest] eqn:Ed; rewrite put_shape;
        (eexists; split; [reflexivity|]); (split; [apply Hnw'|]).
      + simpl. rewrite !lookup_singleton_eq. simpl. destruct rem; [done|]. simpl. lia.
      + simpl. rewrite !lookup_singleton_eq. simpl.
        assert (Hl : length (b :: rest) = (length rem - S n)%nat)
          by (rewrite <- Ed; apply length_drop).
        simpl in Hl. lia.
    - eexists. split; [reflexivity|]. split; [apply Hnw'|]. right.
      simpl. rewrite !lookup_singleton_eq. by rewrite Es. }
  destruct Hkey as (w' & Hs & Hnw1 & Hlt). exists w'.
  split; [exact Hs|]. split; [exact (step_good _ _ Hg Hs)|]. auto.
Qed.

Lemma drain (n : nat) (w : world P) :
  (forall st c, c <> [] -> exists k st', u_write P st c = (Ok (S k), st')) ->
  good w -> Fresh.no_writer w -> (Fresh.steps_left w <= n)%nat ->
  exists w', Forwarder.run (repeat (EvFwd 4) n) w = Some w'
             /\ good w' /\ is_Some (Forwarder.exited 4 w').
Proof.
  intros Hprog. revert w. induction n as [|n IH]; intros w Hg Hnw Hle.
  - exists w. split; [reflexivity|]. split; [exact Hg|].
    destruct Hg as [q F u cx cp nfd nid lg Hsrc Hsnk Hos Hok Hstop Hcl Hext Hcx Hflow].
    revert Hle. unfold Fresh.steps_left, Forwarder.exited. simpl.
    rewrite !lookup_singleton_eq.
    destruct (state F); simpl; [lia | lia | eauto].
  - destruct (step_drains w Hprog Hg Hnw) as (w1 & Hs & Hg1 & Hnw1 & Hlt).
    simpl. rewrite Hs. apply IH; [done | done | lia].
Qed.

(** When every writer has let go of the pipe and the sink takes at least
    one byte of every non-empty write, a [join()] during which only the
    Forwarder runs returns the caller's object. *)
Lemma join_returns (w : world P) :
  (forall st c, c <> [] -> exists k st', u_write P st c = (Ok (S k), st')) ->
  good w ->
  (forall q, pipes w !! 1 = Some q -> p_ext_w q = 0%nat) ->
  exists n w',
    join (repeat (EvFwd 4) n) {| _orig := 0; file := 2; _forward := 4 |} w = Done 0 w'.
Proof.
  intros Hprog Hg Hext0.
  assert (exists wa, file_close Main 2 w = Done tt wa /\ good wa /\ Fresh.no_writer wa)
    as (wa & Hc & Hga & Hnw).
  { pose proof Hg as Hg0.
    destruct Hg as [q F u cx cp nfd nid lg Hsrc Hsnk Hos Hok Hstop Hcl Hext Hcx Hflow].
    specialize (Hext0 q (lookup_singleton_eq _ _)).
    pose proof (fun w' => exit_good Main _ w' Hg0) as Hex.
    rewrite file_close_shape_2 in *.
    destruct cx.
    - eexists. split; [reflexivity|]. split; [by apply Hex|].
      intros ?. simpl. rewrite lookup_singleton_eq. intros [= <-].
      unfold writers_open. rewrite Hext0. by destruct (p_loc_w q).
    - destruct (p_loc_w q) eqn:El; [|discriminate].
      eexists. split; [reflexivity|]. split; [by apply Hex|].
      intros ?. simpl. rewrite lookup_singleton_eq. intros [= <-].
      unfold writers_open. simpl. by rewrite Hext0. }
  destruct (drain (Fresh.steps_left (record Main (LFwdJoin 4) wa))
              (record Main (LFwdJoin 4) wa) Hprog (good_record _ _ _ Hga))
    as (w' & Hr & _ & [r He]); [exact Hnw | lia |].
  exists (Fresh.steps_left (record Main (LFwdJoin 4) wa)).
  unfold join. simpl. rewrite Hc. simpl. unfold Forwarder.join.
  destruct (Forwarder.exited 4 (record Main (LFwdJoin 4) wa)) as [r0|]; simpl; [eauto|].
  rewrite Hr, He. simpl. eauto.
Qed.

(** C1: a fresh process builds a write-mode bridge over its stream object
    and uses it in any way short of [detach()] and [close()], while this
    and other processes write through the exposed descriptor, in chunks of
    any sizes and at any moments, and touch no other descriptor; the sink
    raises on no write and the Forwarder's chunk size is positive. Then,
    when a [join()] returns, the Forwarder has ended normally and the
    caller's object has acknowledged exactly the bytes that were written
    into the pipe, in the order they were written: none missing, none
    twice. *)
Theorem bridge_delivers_written_bytes (st : ustate P) (self : t) (w0 : world P)
    (fd p : Z) (acts : list action) (w : world P) (bg : list event)
    (o : Z) (w' : world P) :
  str_contains "r" mode = false ->
  __init__ 0 mode (boot st) = Done self w0 ->
  fileno self w0 = Done fd w0 ->
  fdt w0 !! fd = Some (p, WrEnd) ->
  forallb (calm fd) acts = true ->
  session self acts w0 = Some w ->
  forallb (event_on fd) bg = true ->
  join bg self w = Done o w' ->
  o = 0
  /\ Forwarder.exited (_forward self) w' = Some NormalEof
  /\ exists B : bytes, written p w' = Some B /\ received 0 w' = Some B.
Proof.
  intros Hm Hinit Hfd Hp Hacts Hsess Hbg Hjoin.
  destruct (init_good st self w0 Hm Hinit) as [-> Hg0].
  assert (fd = 4 /\ p = 1) as [-> ->].
  { destruct Hg0 as [q F u cx cp nfd nid lg].
    unfold fileno, file_fileno in Hfd. simpl in Hfd. rewrite files_of_2 in Hfd.
    simpl in Hfd. destruct cx; [discriminate|]. injection Hfd as <-.
    simpl in Hp. rewrite fdt_of_4 in Hp. destruct (p_loc_w q); [|discriminate].
    by injection Hp as <-. }
  pose proof (session_good acts w0 w Hacts Hg0 Hsess) as Hg.
  assert (Hg' : good w').
  { apply (act_good (AJoin bg) w w'); [exact Hbg | exact Hg |]. simpl. by rewrite Hjoin. }
  apply join_unfold in Hjoin as (-> & wa & r & Hc & Hj).
  apply forwarder_join_done in Hj as (He & _).
  split; [reflexivity|].
  destruct Hg' as [q F u cx cp nfd nid lg Hsrc Hsnk Hos Hok Hstop Hcl Hext Hcx Hflow].
  unfold Forwarder.exited in *. simpl in *. rewrite lookup_singleton_eq in He.
  destruct (state F) as [| |r'] eqn:Es; try discriminate. injection He as ->.
  destruct Hflow as (-> & Hw & _). split; [by rewrite lookup_singleton_eq, Es|].
  exists (p_written q). unfold written, received. simpl.
  rewrite !lookup_singleton_eq. simpl. by rewrite Hw.
Qed.

End Delivery.

(** ** The capability queries *)

Lemma demo_init : FDWrap.__init__ 0 "wb" demo_boot = Done demo_self demo_w0.
Proof. vm_compute. reflexivity. Defined.

Lemma demo_rinit : FDWrap.__init__ 0 "rb" demo_rboot = Done demo_self demo_r0.
Proof. vm_compute. reflexivity. Defined.

(** C3 (amended): the four capability queries are static methods that
    return [False] each: for every bridge, of either direction,
    [seekable()], [isatty()], [readable()] and [writable()] are all
    [False]. *)
Theorem capability_queries_all_false :
  forall d : direction,
    match d with
    | ReadMode => FDWrap.readable = false
    | WriteMode => FDWrap.writable = false
    end
    /\ FDWrap.readable = false /\ FDWrap.writable = false
    /\ FDWrap.seekable = false /\ FDWrap.isatty = false.
Proof. intros []; repeat split. Qed.

(** C3 as stated fails: a bridge built with mode [rb] is a read-mode
    bridge, and its [readable()] is [False]; a bridge built with mode [wb]
    is a write-mode bridge, and its [writable()] is [False]. *)
Lemma capability_queries_counterexample :
  FDWrap.__init__ 0 "rb" demo_rboot = Done demo_self demo_r0
  /\ mode_direction "rb" = ReadMode /\ FDWrap.readable <> true
  /\ FDWrap.__init__ 0 "wb" demo_boot = Done demo_self demo_w0
  /\ mode_direction "wb" = WriteMode /\ FDWrap.writable <> true.
Proof.
  split; [exact demo_rinit|]. split; [reflexivity|]. split; [discriminate|].
  split; [exact demo_init|]. split; [reflexivity|]. discriminate.
Qed.

(** ** Scenarios *)

(** The mode [r+b] passes the mode check of [os.fdopen], which then finds
    that the pipe end cannot seek: the constructor raises
    io.UnsupportedOperation with descriptor [3] closed, descriptor [4]
    still open and no Forwarder. *)
Example init_plus_mode_example :
  FDWrap.__init__ 0 "r+b" demo_rboot
    = Fail UnsupportedOperation (Forwarder.after (FDWrap.__init__ 0 "r+b" demo_rboot) demo_rboot)
  /\ fdt (Forwarder.after (FDWrap.__init__ 0 "r+b" demo_rboot) demo_rboot) !! 3 = None
  /\ fdt (Forwarder.after (FDWrap.__init__ 0 "r+b" demo_rboot) demo_rboot) !! 4
     = Some (1, WrEnd)
  /\ fwds (Forwarder.after (FDWrap.__init__ 0 "r+b" demo_rboot) demo_rboot) = ∅.
Proof.
  split; [vm_compute; reflexivity|].
  split; [vm_compute; reflexivity|].
  split; [vm_compute; reflexivity|].
  vm_compute; reflexivity.
Qed.

(** C2 as stated fails: for the mode [rw], which names both directions,
    the constructor raises the ValueError of [os.fdopen], not
    InvalidModeError, and it has created the pipe by then; for the mode
    [a], which names neither, it raises nothing and builds a write-mode
    bridge. *)
Lemma init_invalid_mode_counterexample :
  mode_resolves "rw" = false
  /\ FDWrap.__init__ 0 "rw" demo_boot
     = Fail ValueError (Forwarder.after (FDWrap.__init__ 0 "rw" demo_boot) demo_boot)
  /\ pipes demo_boot !! 1 = None
  /\ is_Some (pipes (Forwarder.after (FDWrap.__init__ 0 "rw" demo_boot) demo_boot) !! 1)
  /\ mode_resolves "a" = false
  /\ FDWrap.__init__ 0 "a" demo_boot
     = Done demo_self (Forwarder.after (FDWrap.__init__ 0 "a" demo_boot) demo_boot).
Proof.
  split; [reflexivity|].
  split; [vm_compute; reflexivity|].
  split; [vm_compute; reflexivity|].
  split; [vm_compute; eauto|].
  split; [reflexivity|].
  vm_compute; reflexivity.
Qed.

Lemma demo_sink_accepts :
  forall (st : ustate demo) (c : bytes),
    exists (n : nat) (st' : ustate demo), u_write demo st c = (Ok n, st').
Proof. intros st c. eexists _, _. reflexivity. Defined.

Lemma demo_session : System.session demo_self demo_acts demo_w0 = Some demo_w1.
Proof. vm_compute. reflexivity. Defined.

Lemma demo_join : FDWrap.join demo_bg demo_self demo_w1 = Done 0 demo_w2.
Proof. vm_compute. reflexivity. Defined.

Lemma demo_rsession : System.session demo_self demo_racts demo_r0 = Some demo_r1.
Proof. vm_compute. reflexivity. Defined.

Lemma demo_borrowed : Inv.borrowed demo_rboot.
Proof. intros t F H. vm_compute in H. discriminate. Defined.

Lemma bridge_delivers_written_bytes_witness :
  0 = 0
  /\ Forwarder.exited (FDWrap._forward demo_self) demo_w2 = Some NormalEof
  /\ exists B : bytes,
       System.written 1 demo_w2 = Some B /\ System.received 0 demo_w2 = Some B.
Proof.
  apply (bridge_delivers_written_bytes (P := demo) "wb"
           ltac:(simpl; lia) demo_sink_accepts [] demo_self demo_w0 4 1
           demo_acts demo_w1 demo_bg 0 demo_w2).
  - reflexivity.
  - exact demo_init.
  - vm_compute. reflexivity.
  - vm_compute. reflexivity.
  - vm_compute. reflexivity.
  - exact demo_session.
  - vm_compute. reflexivity.
  - exact demo_join.
Defined.

Lemma init_wiring_witness :
  FDWrap._orig demo_self = 0
  /\ fdt demo_r0 !! next_fd demo_rboot = Some (next_id demo_rboot, RdEnd)
  /\ fdt demo_r0 !! (next_fd demo_rboot + 1) = Some (next_id demo_rboot, WrEnd)
  /\ exists priv : Z,
       match mode_direction "rb" with
       | ReadMode =>
           files demo_r0 !! FDWrap.file demo_self
             = Some {| f_fd := next_fd demo_rboot; f_mode := "rb"; f_closed := false |}
           /\ files demo_r0 !! priv
             = Some {| f_fd := next_fd demo_rboot + 1; f_mode := "wb"; f_closed := false |}
           /\ fwds demo_r0 !! FDWrap._forward demo_self
             = Some {| source := EStream 0; sink := EFile priv;
                       ownsSource := false; ownsSink := true;
                       stop_requested := false; state := Reading |}
       | WriteMode =>
           files demo_r0 !! FDWrap.file demo_self
             = Some {| f_fd := next_fd demo_rboot + 1; f_mode := "rb"; f_closed := false |}
           /\ files demo_r0 !! priv
             = Some {| f_fd := next_fd demo_rboot; f_mode := "rb"; f_closed := false |}
           /\ fwds demo_r0 !! FDWrap._forward demo_self
             = Some {| source := EFile priv; sink := EStream 0;
                       ownsSource := true; ownsSink := false;
                       stop_requested := false; state := Reading |}
       end.
Proof. exact (init_wiring 0 "rb" demo_rboot demo_self demo_r0 demo_rinit). Defined.

Lemma join_sequence_witness :
  0 = 0
  /\ exists (wa : world demo) (r : fresult),
       Runtime.file_close Main (FDWrap.file demo_self) demo_w1 = Done tt wa
       /\ System.file_closed (FDWrap.file demo_self) wa = Some true
       /\ Forwarder.join demo_bg (FDWrap._forward demo_self) wa = Done r demo_w2
       /\ Forwarder.exited (FDWrap._forward demo_self) demo_w2 = Some r
       /\ System.file_closed (FDWrap.file demo_self) demo_w2 = Some true
       /\ System.calls_of Main (log demo_w2)
          = System.calls_of Main (log demo_w1)
            ++ [LFileClose (FDWrap.file demo_self); LFwdJoin (FDWrap._forward demo_self)].
Proof.
  exact (join_sequence 0 "wb" demo_boot demo_self demo_w0 demo_acts demo_w1 demo_bg 0
           demo_w2 demo_init demo_session demo_join).
Defined.

Lemma exit_closes_only_exposed_file_witness :
  log (Forwarder.after (FDWrap.__exit__ demo_self demo_w0) demo_w0)
    = log demo_w0 ++ [(Main, LFileClose (FDWrap.file demo_self))]
  /\ System.file_closed (FDWrap.file demo_self)
       (Forwarder.after (FDWrap.__exit__ demo_self demo_w0) demo_w0) = Some true
  /\ fwds (Forwarder.after (FDWrap.__exit__ demo_self demo_w0) demo_w0) = fwds demo_w0
  /\ streams (Forwarder.after (FDWrap.__exit__ demo_self demo_w0) demo_w0) = streams demo_w0
  /\ (forall g, g <> FDWrap.file demo_self ->
        files (Forwarder.after (FDWrap.__exit__ demo_self demo_w0) demo_w0) !! g
        = files demo_w0 !! g)
  /\ next_fd (Forwarder.after (FDWrap.__exit__ demo_self demo_w0) demo_w0) = next_fd demo_w0
  /\ next_id (Forwarder.after (FDWrap.__exit__ demo_self demo_w0) demo_w0) = next_id demo_w0
  /\ exists fo : pyfile,
       files demo_w0 !! FDWrap.file demo_self = Some fo
       /\ files (Forwarder.after (FDWrap.__exit__ demo_self demo_w0) demo_w0)
            !! FDWrap.file demo_self
          = Some {| f_fd := f_fd fo; f_mode := f_mode fo; f_closed := true |}
       /\ if f_closed fo
          then fdt (Forwarder.after (FDWrap.__exit__ demo_self demo_w0) demo_w0) = fdt demo_w0
               /\ pipes (Forwarder.after (FDWrap.__exit__ demo_self demo_w0) demo_w0)
                  = pipes demo_w0
          else fdt (Forwarder.after (FDWrap.__exit__ demo_self demo_w0) demo_w0)
               = delete (f_fd fo) (fdt demo_w0)
               /\ pipes (Forwarder.after (FDWrap.__exit__ demo_self demo_w0) demo_w0)
                  = match fdt demo_w0 !! f_fd fo with
                    | Some (p, e) =>
                        alter (fun q => Runtime.set_local q e false) p (pipes demo_w0)
                    | None => pipes demo_w0
                    end.
Proof.
  apply (exit_closes_only_exposed_file demo_self demo_w0).
  vm_compute. reflexivity.
Defined.

Lemma join_twice_witness :
  FDWrap.join [] demo_self demo_w2
    = Done 0 (Runtime.record Main (LFwdJoin (FDWrap._forward demo_self))
                (Runtime.record Main (LFileClose (FDWrap.file demo_self)) demo_w2))
  /\ is_Some (Forwarder.exited (FDWrap._forward demo_self) demo_w2).
Proof. exact (join_twice demo_bg [] demo_self demo_w1 0 demo_w2 demo_join). Defined.

Lemma detach_returns_unclosed_witness :
  exists w' : world demo,
    FDWrap.detach demo_self demo_r1 = Done 0 w'
    /\ log w' = log demo_r1 ++ [(Main, LFwdStop (FDWrap._forward demo_self))]
    /\ streams w' = streams demo_r1
    /\ System.stream_closed 0 w' = Some false
    /\ (exists F, fwds w' !! FDWrap._forward demo_self = Some F
                  /\ (stop_requested F = true \/ exists r, state F = Exited r))
    /\ (forall evs w'', Forwarder.run evs w' = Some w'' ->
          System.stream_closed 0 w'' = Some false).
Proof.
  apply (detach_returns_unclosed 0 "rb" demo_rboot demo_self demo_r0 demo_racts demo_r1
           demo_borrowed).
  - vm_compute. reflexivity.
  - exact demo_rinit.
  - vm_compute. reflexivity.
  - exact demo_rsession.
Defined.

(** * More about bytereader.py *)

Section BytesReaderMore.
Import BytesReader.

(** X1: whatever is called on a reader, in any order and with any
    arguments, its position stays between 0 and the length of the data. *)
Theorem BytesReader_position_in_range (D : bytes) (cs : list call) :
  0 <= tell (exec_all cs (__init__ D)) <= Z.of_nat (length D).
Proof. apply (exec_all_in_bounds D cs _ (init_in_bounds D)). Qed.

Lemma py_slice_from_in_range {A} (l : list A) (a : Z) :
  0 <= a <= Z.of_nat (length l) -> py_slice_from l a = drop (Z.to_nat a) l.
Proof.
  intros Ha. unfold py_slice_from. rewrite py_slice_in_range by lia.
  apply take_ge. rewrite length_drop. lia.
Qed.

(** One [read], of any size, on an open reader in range: what it returns
    followed by what is left is what was left before. *)
Lemma read_splits D r size :
  data r = Some D -> 0 <= pos r <= Z.of_nat (length D) ->
  exists bs r',
    read r size = (Ok bs, r')
    /\ data r' = Some D
    /\ pos r <= pos r' <= Z.of_nat (length D)
    /\ bs ++ drop (Z.to_nat (pos r')) D = drop (Z.to_nat (pos r)) D.
Proof.
  intros Hd Hp.
  destruct size as [s|]; [destruct (Z.ltb_spec s 0)|].
  - exists (drop (Z.to_nat (pos r)) D), (set_pos r (Z.of_nat (length D))).
    unfold read, readview. rewrite Hd. simpl.
    destruct (Z.ltb_spec s 0); [|lia].
    rewrite py_slice_from_in_range by lia. simpl.
    repeat split; auto; try lia.
    rewrite Nat2Z.id, drop_all, app_nil_r. reflexivity.
  - destruct (read_before_end D r s Hd Hp ltac:(lia)) as [Hr Hl].
    eexists _, _. split; [exact Hr|]. simpl.
    repeat split; auto; try lia.
    + rewrite length_take, length_drop. lia.
    + rewrite Z2Nat.inj_add, Nat2Z.id by lia.
      rewrite <- drop_drop. rewrite length_take, length_drop.
      rewrite <- (take_drop (Z.to_nat s) (drop (Z.to_nat (pos r)) D)) at 3.
      f_equal. destruct (Nat.le_ge_cases (Z.to_nat s) (length D - Z.to_nat (pos r))).
      * by rewrite Nat.min_l.
      * rewrite Nat.min_r by done.
        rewrite !drop_ge; [done | |]; rewrite length_drop; lia.
  - exists (drop (Z.to_nat (pos r)) D), (set_pos r (Z.of_nat (length D))).
    unfold read, readview. rewrite Hd. simpl.
    rewrite py_slice_from_in_range by lia. simpl.
    repeat split; auto; try lia.
    rewrite Nat2Z.id, drop_all, app_nil_r. reflexivity.
Qed.

Lemma reads_split D sizes : forall r,
  data r = Some D -> 0 <= pos r <= Z.of_nat (length D) ->
  forallb is_ok (fst (reads r sizes)) = true
  /\ length (fst (reads r sizes)) = length sizes
  /\ data (snd (reads r sizes)) = Some D
  /\ concat (oks (fst (reads r sizes))) ++ drop (Z.to_nat (pos (snd (reads r sizes)))) D
     = drop (Z.to_nat (pos r)) D.
Proof.
  induction sizes as [|s sizes IH]; intros r Hd Hp; simpl.
  - rewrite Hd. auto.
  - destruct (read_splits D r s Hd Hp) as (bs & r1 & Hr & Hd1 & Hp1 & Hs).
    rewrite Hr. destruct (reads r1 sizes) as [rs r2] eqn:E.
    destruct (IH r1 Hd1 ltac:(lia)) as (Hok & Hlen & Hd2 & Hc).
    rewrite E in *. simpl in *.
    repeat split; auto.
    rewrite <- Hs, <- Hc. by rewrite app_assoc.
Qed.

(** X2: on an open reader, a sequence of [read] calls of any sizes
    ([None], negative, zero, beyond the end) loses and repeats nothing:
    every call returns, and the bytes returned, in call order, followed by
    the bytes still after the final position, are the bytes that were
    after the starting position. *)
Theorem BytesReader_reads_partition (D : bytes) (cs : list call) (r : t)
    (sizes : list (option Z)) :
  r = exec_all cs (__init__ D) ->
  data r = Some D ->
  forallb is_ok (fst (reads r sizes)) = true
  /\ length (fst (reads r sizes)) = length sizes
  /\ concat (oks (fst (reads r sizes))) ++ drop (Z.to_nat (pos (snd (reads r sizes)))) D
     = drop (Z.to_nat (pos r)) D.
Proof.
  intros -> Hd.
  pose proof (exec_all_in_bounds D cs _ (init_in_bounds D)) as [_ Hp].
  destruct (reads_split D sizes _ Hd Hp) as (? & ? & ? & ?). auto.
Qed.

Lemma BytesReader_reads_partition_witness :
  forallb is_ok
    (fst (reads (exec_all [CSeek 1 SEEK_SET] (__init__ [x61; x62; x63; x64; x65]))
            [Some 2; Some 0; Some (-1); None])) = true
  /\ length
       (fst (reads (exec_all [CSeek 1 SEEK_SET] (__init__ [x61; x62; x63; x64; x65]))
               [Some 2; Some 0; Some (-1); None])) = 4%nat
  /\ concat
       (oks (fst (reads (exec_all [CSeek 1 SEEK_SET] (__init__ [x61; x62; x63; x64; x65]))
                    [Some 2; Some 0; Some (-1); None])))
     ++ drop
          (Z.to_nat
             (pos (snd (reads (exec_all [CSeek 1 SEEK_SET]
                                 (__init__ [x61; x62; x63; x64; x65]))
                          [Some 2; Some 0; Some (-1); None]))))
          [x61; x62; x63; x64; x65]
     = drop (Z.to_nat (pos (exec_all [CSeek 1 SEEK_SET] (__init__ [x61; x62; x63; x64; x65]))))
         [x61; x62; x63; x64; x65].
Proof.
  exact (BytesReader_reads_partition [x61; x62; x63; x64; x65] [CSeek 1 SEEK_SET] _
           [Some 2; Some 0; Some (-1); None] eq_refl eq_refl).
Defined.

(** X3: [readall()] on an open reader returns everything from the current
    position to the end and leaves the reader at the end; on a new reader
    it returns the wrapped data unchanged. *)
Theorem BytesReader_readall_rest (D : bytes) (cs : list call) (r : t) :
  r = exec_all cs (__init__ D) ->
  data r = Some D ->
  readall r = (Ok (drop (Z.to_nat (pos r)) D), set_pos r (Z.of_nat (length D)))
  /\ readall (__init__ D) = (Ok D, set_pos (__init__ D) (Z.of_nat (length D))).
Proof.
  intros -> Hd.
  pose proof (exec_all_in_bounds D cs _ (init_in_bounds D)) as [_ Hp].
  split.
  - unfold readall, read, readview. rewrite Hd. simpl.
    by rewrite py_slice_from_in_range by lia.
  - unfold readall, read, readview. simpl.
    by rewrite py_slice_from_in_range by lia.
Qed.

Lemma BytesReader_readall_rest_witness :
  readall (exec_all [CRead (Some 2)] (__init__ [x61; x62; x63]))
    = (Ok [x63], set_pos (exec_all [CRead (Some 2)] (__init__ [x61; x62; x63])) 3)
  /\ readall (__init__ [x61; x62; x63])
    = (Ok [x61; x62; x63], set_pos (__init__ [x61; x62; x63]) 3).
Proof.
  exact (BytesReader_readall_rest [x61; x62; x63] [CRead (Some 2)] _ eq_refl eq_refl).
Defined.

(** X4: [seek] on an open reader never fails and never leaves the data:
    the target is [pos] for [SEEK_SET] and for any unknown [whence],
    [pos] plus the current position for [SEEK_CUR], [pos] plus the length
    for [SEEK_END]; it is clamped to [0, len(D)], stored and returned, and
    the next [read(size)] with [size >= 0] returns the bytes from there. *)
Theorem BytesReader_seek_then_read (D : bytes) (cs : list call) (r : t)
    (p whence size : Z) :
  r = exec_all cs (__init__ D) ->
  data r = Some D ->
  0 <= size ->
  exists np : Z,
    seek r p whence = (Ok np, set_pos r np)
    /\ tell (snd (seek r p whence)) = np
    /\ np = Z.max 0 (Z.min (Z.of_nat (length D))
                      (if whence =? 1 then p + pos r
                       else if whence =? 2 then p + Z.of_nat (length D) else p))
    /\ fst (read (snd (seek r p whence)) (Some size))
       = Ok (take (Z.to_nat size) (drop (Z.to_nat np) D)).
Proof.
  intros -> Hd Hs.
  pose proof (exec_all_in_bounds D cs _ (init_in_bounds D)) as [_ Hp].
  set (r := exec_all cs (__init__ D)) in *.
  set (np := Z.max 0 (Z.min (Z.of_nat (length D))
                      (if whence =? 1 then p + pos r
                       else if whence =? 2 then p + Z.of_nat (length D) else p))).
  assert (Hseek : seek r p whence = (Ok np, set_pos r np)).
  { unfold seek. rewrite Hd. unfold SEEK_CUR, SEEK_END.
    replace (Z.max (Z.min _ _) 0) with np by (unfold np; lia). reflexivity. }
  exists np. rewrite Hseek. simpl.
  split; [reflexivity|]. split; [reflexivity|]. split; [reflexivity|].
  destruct (read_before_end D (set_pos r np) size) as [Hr _]; simpl; auto.
  - unfold np. lia.
  - by rewrite Hr.
Qed.

Lemma BytesReader_seek_then_read_witness :
  exists np : Z,
    seek (exec_all [CReadall] (__init__ [x61; x62; x63; x64])) (-3) 1
      = (Ok np, set_pos (exec_all [CReadall] (__init__ [x61; x62; x63; x64])) np)
    /\ tell (snd (seek (exec_all [CReadall] (__init__ [x61; x62; x63; x64])) (-3) 1)) = np
    /\ np = Z.max 0 (Z.min (Z.of_nat (length [x61; x62; x63; x64]))
                      (if 1 =? 1
                       then -3 + pos (exec_all [CReadall] (__init__ [x61; x62; x63; x64]))
                       else if 1 =? 2 then -3 + Z.of_nat (length [x61; x62; x63; x64])
                            else -3))
    /\ fst (read (snd (seek (exec_all [CReadall] (__init__ [x61; x62; x63; x64])) (-3) 1))
              (Some 2))
       = Ok (take (Z.to_nat 2) (drop (Z.to_nat np) [x61; x62; x63; x64])).
Proof.
  apply (BytesReader_seek_then_read [x61; x62; x63; x64] [CReadall] _ (-3) 1 2 eq_refl eq_refl).
  lia.
Defined.

(** X5: [seek(-k, SEEK_END)] with [0 <= k <= len(D)] followed by
    [readall()] returns exactly the last [k] bytes of the data. *)
Theorem BytesReader_seek_end_reads_tail (D : bytes) (cs : list call) (r : t) (k : Z) :
  r = exec_all cs (__init__ D) ->
  data r = Some D ->
  0 <= k <= Z.of_nat (length D) ->
  fst (readall (snd (seek r (- k) SEEK_END)))
    = Ok (drop (length D - Z.to_nat k) D)
  /\ length (drop (length D - Z.to_nat k) D) = Z.to_nat k.
Proof.
  intros -> Hd Hk. split.
  - unfold seek. rewrite Hd. simpl.
    unfold readall, read, readview. simpl. rewrite Hd. simpl.
    rewrite py_slice_from_in_range by lia.
    do 2 f_equal. lia.
  - rewrite length_drop. lia.
Qed.

Lemma BytesReader_seek_end_reads_tail_witness :
  fst (readall (snd (seek (exec_all [CRead (Some 1)] (__init__ [x6f; x6c; x64; x21]))
                       (- 2) SEEK_END)))
    = Ok (drop (length [x6f; x6c; x64; x21] - Z.to_nat 2) [x6f; x6c; x64; x21])
  /\ length (drop (length [x6f; x6c; x64; x21] - Z.to_nat 2) [x6f; x6c; x64; x21])
     = Z.to_nat 2.
Proof.
  apply (BytesReader_seek_end_reads_tail [x6f; x6c; x64; x21] [CRead (Some 1)] _ 2
           eq_refl eq_refl).
  simpl. lia.
Defined.

(** X6: [readinto(buf)] on an open reader copies as many bytes as fit and
    are left: it returns [n = min(len(buf), len(D) - pos)], the first [n]
    bytes of the buffer become the next [n] bytes of the data, the rest of
    the buffer and its length are unchanged, and the position advances by
    [n]. *)
Theorem BytesReader_readinto_fills_prefix (D : bytes) (cs : list call) (r : t) (buf : bytes) :
  r = exec_all cs (__init__ D) ->
  data r = Some D ->
  exists n : nat,
    n = (length buf `min` (length D - Z.to_nat (pos r)))%nat
    /\ readinto r buf
       = (Ok (Z.of_nat n, take n (drop (Z.to_nat (pos r)) D) ++ drop n buf),
          set_pos r (pos r + Z.of_nat n))
    /\ length (take n (drop (Z.to_nat (pos r)) D) ++ drop n buf) = length buf.
Proof.
  intros -> Hd.
  pose proof (exec_all_in_bounds D cs _ (init_in_bounds D)) as [_ Hp].
  set (r := exec_all cs (__init__ D)) in *.
  exists (length buf `min` (length D - Z.to_nat (pos r)))%nat.
  split; [reflexivity|]. split.
  - unfold readinto. rewrite Hd.
    set (size := Z.min _ _).
    assert (Hsz : size = Z.of_nat (length buf `min` (length D - Z.to_nat (pos r)))%nat)
      by (unfold size; clearbody r; lia).
    rewrite py_slice_in_range by lia.
    rewrite adjust_index_in_range by lia.
    rewrite Hsz. rewrite !Nat2Z.id.
    replace (Z.to_nat (pos r + _ - pos r))
      with (length buf `min` (length D - Z.to_nat (pos r)))%nat by lia.
    reflexivity.
  - rewrite length_app, length_take, length_drop, length_drop. lia.
Qed.

Lemma BytesReader_readinto_fills_prefix_witness :
  fst (readinto (exec_all [CRead (Some 1)] (__init__ [x61; x62; x63])) [x00; x00; x00; x00])
  = Ok (2, [x62; x63; x00; x00]).
Proof.
  destruct (BytesReader_readinto_fills_prefix [x61; x62; x63] [CRead (Some 1)] _
              [x00; x00; x00; x00] eq_refl eq_refl) as (n & -> & -> & _).
  reflexivity.
Defined.

Lemma exec_closed (r : t) (c : call) :
  data r = None -> closed r = true -> exec c r = r.
Proof.
  intros Hd Hc. destruct r as [d p cl]. simpl in *. subst.
  destruct c; reflexivity.
Qed.

Lemma exec_all_closed (cs : list call) (r : t) :
  data r = None -> closed r = true -> exec_all cs r = r.
Proof.
  intros Hd Hc. induction cs as [|c cs IH]; simpl; [reflexivity|].
  rewrite exec_closed by assumption. exact IH.
Qed.

(** X7: [close()] is final. Whatever is called after it changes nothing:
    the data stays dropped and the position stays where it was; every
    [read], [readview], [readall], [readinto] and [seek] raises TypeError
    (from [len] of [None]), and [tell()] still answers. *)
Theorem BytesReader_closed_is_final (D : bytes) (cs1 cs2 : list call)
    (size : option Z) (buf : bytes) (p whence : Z) :
  exec_all cs2 (close (exec_all cs1 (__init__ D))) = close (exec_all cs1 (__init__ D))
  /\ read (close (exec_all cs1 (__init__ D))) size
     = (Raise TypeError, close (exec_all cs1 (__init__ D)))
  /\ readview (close (exec_all cs1 (__init__ D))) size
     = (Raise TypeError, close (exec_all cs1 (__init__ D)))
  /\ readall (close (exec_all cs1 (__init__ D)))
     = (Raise TypeError, close (exec_all cs1 (__init__ D)))
  /\ readinto (close (exec_all cs1 (__init__ D))) buf
     = (Raise TypeError, close (exec_all cs1 (__init__ D)))
  /\ seek (close (exec_all cs1 (__init__ D))) p whence
     = (Raise TypeError, close (exec_all cs1 (__init__ D)))
  /\ tell (close (exec_all cs1 (__init__ D))) = tell (exec_all cs1 (__init__ D)).
Proof.
  split; [by apply exec_all_closed|]. repeat split.
Qed.

End BytesReaderMore.

(** * More about devnull.py *)

Section DevNullMore.
Import DevNull.
Variable h : host.

Lemma plain_is_sp sp : getattr h (__init__ sp) "_is_sp" = Ok sp.
Proof. reflexivity. Qed.

Lemma plain_f sp : getattr h (__init__ sp) "_f" = Ok VNone.
Proof. reflexivity. Qed.

Lemma holding_is_sp sp fd : getattr h (holding sp fd) "_is_sp" = Ok sp.
Proof. reflexivity. Qed.

Lemma holding_f sp fd : getattr h (holding sp fd) "_f" = Ok (VFile fd).
Proof. reflexivity. Qed.

Lemma holding_release sp fd : setattr (holding sp fd) "_f" VNone = __init__ sp.
Proof.
  unfold holding, __init__, setattr. simpl. f_equal; try by rewrite !insert_insert_eq.
Qed.

Lemma holding_again sp fd fd' : setattr (setattr (__init__ sp) "_f" (VFile fd)) "_f" (VFile fd')
  = holding sp fd'.
Proof.
  unfold holding, __init__, setattr. simpl. f_equal; try by rewrite !insert_insert_eq.
Qed.

Lemma plain_fileno sp fs :
  truthy sp = false ->
  fileno h (__init__ sp) fs =
    if can_open h (null_device h)
    then (Ok (VInt (next_fd fs)), holding sp (next_fd fs), opened (null_device h) fs)
    else (Raise OSError, __init__ sp, fs).
Proof.
  intros Hsp. unfold fileno. rewrite plain_is_sp, Hsp.
  unfold fileno_open. rewrite plain_f. simpl is_none. cbv iota.
  fold (null_device h). unfold py_open.
  destruct (can_open h (null_device h)); [|reflexivity].
  unfold fileno_of_f. fold (holding sp (next_fd fs)). rewrite holding_f. reflexivity.
Qed.

Lemma holding_fileno sp fd fs :
  truthy sp = false ->
  fileno h (holding sp fd) fs = (Ok (VInt fd), holding sp fd, fs).
Proof.
  intros Hsp. unfold fileno. rewrite holding_is_sp, Hsp.
  unfold fileno_open. rewrite holding_f. simpl is_none. cbv iota.
  unfold fileno_of_f. rewrite holding_f. reflexivity.
Qed.

Lemma holding_close sp fd fs :
  close h (holding sp fd) fs = (Ok tt, __init__ sp, py_close fd fs).
Proof. unfold close. rewrite holding_f. by rewrite holding_release. Qed.

Lemma plain_close sp fs : close h (__init__ sp) fs = (Ok tt, __init__ sp, fs).
Proof. unfold close. by rewrite plain_f. Qed.

(** X8: without the subprocess flag (any falsy value), when the null
    device can be opened: the first [fileno()] opens it (at [os.devnull],
    or [NUL] / [/dev/null] by platform when that is missing) and returns
    the new descriptor; every later [fileno()] returns the same
    descriptor and opens nothing. *)
Theorem DevNull_fileno_opens_once (sp : pyval) (fs : files) :
  truthy sp = false ->
  can_open h (null_device h) = true ->
  fileno h (__init__ sp) fs
    = (Ok (VInt (next_fd fs)), holding sp (next_fd fs), opened (null_device h) fs)
  /\ open_files (opened (null_device h) fs) !! next_fd fs = Some (null_device h)
  /\ fileno h (holding sp (next_fd fs)) (opened (null_device h) fs)
    = (Ok (VInt (next_fd fs)), holding sp (next_fd fs), opened (null_device h) fs).
Proof.
  intros Hsp Hopen. rewrite plain_fileno, Hopen by done.
  split; [reflexivity|]. split; [apply lookup_insert_eq|].
  by apply holding_fileno.
Qed.

(** X9: [close()] gives back what [fileno()] took: after [fileno()] then
    [close()] the instance is as new and the set of open files is the one
    from before, so the descriptor is no longer open; [close()] on an
    instance that holds nothing changes nothing; and a [fileno()] after
    [close()] opens the device again. *)
Theorem DevNull_close_releases (sp : pyval) (fs : files) :
  truthy sp = false ->
  can_open h (null_device h) = true ->
  fresh_above fs ->
  exists fs' : files,
    close h (holding sp (next_fd fs)) (opened (null_device h) fs) = (Ok tt, __init__ sp, fs')
    /\ open_files fs' = open_files fs
    /\ open_files fs' !! next_fd fs = None
    /\ close h (__init__ sp) fs' = (Ok tt, __init__ sp, fs')
    /\ fileno h (__init__ sp) fs'
       = (Ok (VInt (next_fd fs')), holding sp (next_fd fs'), opened (null_device h) fs').
Proof.
  intros Hsp Hopen Hfresh.
  exists (py_close (next_fd fs) (opened (null_device h) fs)).
  assert (Hf : open_files fs !! next_fd fs = None) by (apply Hfresh; lia).
  split; [apply holding_close|].
  assert (Heq : open_files (py_close (next_fd fs) (opened (null_device h) fs)) = open_files fs).
  { simpl. rewrite delete_insert_eq. by apply delete_id. }
  split; [exact Heq|]. split; [by rewrite Heq|].
  split; [apply plain_close|].
  rewrite plain_fileno, Hopen by done. reflexivity.
Qed.

Lemma exec_at_most_one sp fs0 c st :
  truthy sp = false -> fresh_above fs0 ->
  at_most_one h sp fs0 st -> at_most_one h sp fs0 (exec h c st).
Proof.
  intros Hsp Hf0 (Hle & Hfr & Hcase). destruct st as [I fs].
  unfold at_most_one, fresh_above in *. simpl in *.
  destruct Hcase as [[-> Ho] | (fd & Hfd & -> & Ho)]; destruct c; simpl.
  - rewrite plain_fileno by done.
    destruct (can_open h (null_device h)); unfold opened; simpl.
    + split; [lia|]. split.
      * intros k Hk. rewrite lookup_insert_ne by lia. apply Hfr. lia.
      * right. exists (next_fd fs). repeat split; [lia | lia |]. by rewrite Ho.
    + split; [lia|]. split; [done|]. by left.
  - rewrite plain_close. simpl. split; [lia|]. split; [done|]. by left.
  - split; [lia|]. split; [done|]. by left.
  - rewrite holding_fileno by done. simpl. split; [lia|]. split; [done|].
    right. exists fd. auto.
  - rewrite holding_close. unfold py_close. simpl. split; [lia|]. split.
    + intros k Hk. destruct (decide (k = fd)) as [->|Hne].
      * apply lookup_delete_eq.
      * rewrite lookup_delete_ne by done. by apply Hfr.
    + left. split; [done|]. rewrite Ho, delete_insert_eq. apply delete_id.
      apply Hf0. lia.
  - split; [lia|]. split; [done|]. right. exists fd. auto.
Qed.

(** X10: a plain instance never holds more than one descriptor and never
    touches the files of others: after any sequence of [fileno()],
    [close()] and other calls, either it holds nothing and the open files
    are exactly those from before, or it holds one descriptor that was
    not open before, opened on the null device, and that is the only
    change. *)
Theorem DevNull_holds_at_most_one (sp : pyval) (fs : files) (cs : list call) :
  truthy sp = false ->
  fresh_above fs ->
  (fst (exec_all h cs (__init__ sp, fs)) = __init__ sp
   /\ open_files (snd (exec_all h cs (__init__ sp, fs))) = open_files fs)
  \/ exists fd : Z,
       open_files fs !! fd = None
       /\ fst (exec_all h cs (__init__ sp, fs)) = holding sp fd
       /\ open_files (snd (exec_all h cs (__init__ sp, fs)))
          = <[fd := null_device h]> (open_files fs).
Proof.
  intros Hsp Hf.
  assert (Hgen : forall st, at_most_one h sp fs st -> at_most_one h sp fs (exec_all h cs st)).
  { induction cs as [|c cs IH]; intros st H0; simpl; [done|].
    apply IH. by apply exec_at_most_one. }
  assert (H : at_most_one h sp fs (exec_all h cs (__init__ sp, fs))).
  { apply Hgen. split; [simpl; lia|]. split; [done|]. by left. }
  destruct H as (_ & _ & [?|(fd & ? & ? & ?)]); [by left|].
  right. exists fd. split; [apply Hf; lia|]. split; assumption.
Qed.

End DevNullMore.

Lemma DevNull_fileno_opens_once_witness :
  DevNull.fileno demo_host (DevNull.__init__ DevNull.VNone) demo_files
    = (Ok (DevNull.VInt 3), holding DevNull.VNone 3, opened "/dev/null" demo_files)
  /\ DevNull.open_files (opened "/dev/null" demo_files) !! 3 = Some "/dev/null"%string
  /\ DevNull.fileno demo_host (holding DevNull.VNone 3) (opened "/dev/null" demo_files)
     = (Ok (DevNull.VInt 3), holding DevNull.VNone 3, opened "/dev/null" demo_files).
Proof.
  apply (DevNull_fileno_opens_once demo_host DevNull.VNone demo_files); reflexivity.
Defined.

Lemma DevNull_close_releases_witness :
  exists fs' : DevNull.files,
    DevNull.close demo_host (holding DevNull.VNone 3) (opened "/dev/null" demo_files)
      = (Ok tt, DevNull.__init__ DevNull.VNone, fs')
    /\ DevNull.open_files fs' = DevNull.open_files demo_files
    /\ DevNull.open_files fs' !! 3 = None
    /\ DevNull.close demo_host (DevNull.__init__ DevNull.VNone) fs'
       = (Ok tt, DevNull.__init__ DevNull.VNone, fs')
    /\ DevNull.fileno demo_host (DevNull.__init__ DevNull.VNone) fs'
       = (Ok (DevNull.VInt (DevNull.next_fd fs')), holding DevNull.VNone (DevNull.next_fd fs'),
          opened "/dev/null" fs').
Proof.
  apply (DevNull_close_releases demo_host DevNull.VNone demo_files);
    [reflexivity | reflexivity | intros k _; apply lookup_empty].
Defined.

Lemma DevNull_holds_at_most_one_witness :
  (fst (DevNull.exec_all demo_host
          [DevNull.CFileno; DevNull.CClose; DevNull.CFileno; DevNull.CFileno]
          (DevNull.__init__ DevNull.VNone, demo_files))
     = DevNull.__init__ DevNull.VNone
   /\ DevNull.open_files
        (snd (DevNull.exec_all demo_host
                [DevNull.CFileno; DevNull.CClose; DevNull.CFileno; DevNull.CFileno]
                (DevNull.__init__ DevNull.VNone, demo_files)))
      = DevNull.open_files demo_files)
  \/ exists fd : Z,
       DevNull.open_files demo_files !! fd = None
       /\ fst (DevNull.exec_all demo_host
                 [DevNull.CFileno; DevNull.CClose; DevNull.CFileno; DevNull.CFileno]
                 (DevNull.__init__ DevNull.VNone, demo_files))
          = holding DevNull.VNone fd
       /\ DevNull.open_files
            (snd (DevNull.exec_all demo_host
                    [DevNull.CFileno; DevNull.CClose; DevNull.CFileno; DevNull.CFileno]
                    (DevNull.__init__ DevNull.VNone, demo_files)))
          = <[fd := "/dev/null"%string]> (DevNull.open_files demo_files).
Proof.
  apply (DevNull_holds_at_most_one demo_host DevNull.VNone demo_files);
    [reflexivity | intros k _; apply lookup_empty].
Defined.


(** * Facts about seqwriter.py *)

Section SeqWriterFacts.
Import SeqWriter.
Context {A : Type}.

Lemma total_app (xs ys : list (list A)) : total (xs ++ ys) = total xs + total ys.
Proof. induction xs as [|x xs IH]; simpl; [lia|]. unfold total in *. simpl. lia. Qed.

(** All the lines written go, in order, into the writer's sequence, and
    the position grows by their total length. *)
Lemma writes_effect (lines : list (list A)) : forall (self : t) (H : heap A) ref s,
  data self = Some ref -> objs H !! ref = Some s ->
  writes self lines H
  = (None,
     {| data := Some ref; pos := pos self + total lines; closed := closed self |},
     {| objs := <[ref := foldl seq_append s lines]> (objs H); next_ref := next_ref H |}).
Proof.
  induction lines as [|x lines IH]; intros self H ref s Hd Ho; simpl.
  - destruct self as [d p c], H as [o n]. simpl in *. subst.
    rewrite Z.add_0_r. by rewrite insert_id.
  - unfold write. rewrite Hd, Ho.
    erewrite IH; [|reflexivity|simpl; apply lookup_insert_eq].
    simpl. rewrite insert_insert_eq. do 3 f_equal. unfold total. simpl. lia.
Qed.

Lemma writelines_effect (lines : list (list A)) (self : t) (H : heap A) ref s :
  closed self = false -> data self = Some ref -> objs H !! ref = Some s ->
  writelines self lines H
  = (None,
     {| data := Some ref; pos := pos self + total lines; closed := false |},
     {| objs := <[ref := foldl seq_append s lines]> (objs H); next_ref := next_ref H |}).
Proof.
  intros Hc Hd Ho. unfold writelines. rewrite Hc.
  rewrite (writes_effect lines self H ref s Hd Ho). by rewrite Hc.
Qed.

Lemma foldl_append_list (l lines : list (list A)) :
  foldl seq_append (PList l) lines = PList (l ++ lines).
Proof.
  revert l. induction lines as [|x lines IH]; intros l; simpl.
  - by rewrite app_nil_r.
  - rewrite IH. by rewrite <- app_assoc.
Qed.

Lemma last_of_last (m : nat) (ys zs : list (list A)) :
  drop (length (drop (length ys - m) ys ++ zs) - m) (drop (length ys - m) ys ++ zs)
  = drop (length (ys ++ zs) - m) (ys ++ zs).
Proof.
  rewrite <- (drop_app_le ys zs (length ys - m)) by lia.
  rewrite drop_drop. f_equal.
  rewrite length_drop, length_app. lia.
Qed.

Lemma append_bounded (m : nat) (l : list (list A)) (x : list A) :
  (length l <= m)%nat ->
  seq_append (PDeque (Some m) l) x
  = PDeque (Some m) (drop (length (l ++ [x]) - m) (l ++ [x])).
Proof.
  intros Hl. simpl. f_equal. rewrite length_app. simpl.
  destruct (Nat.ltb_spec m (length l + 1)).
  - by replace (length l + 1 - m)%nat with 1%nat by lia.
  - by replace (length l + 1 - m)%nat with 0%nat by lia.
Qed.

Lemma foldl_append_bounded (m : nat) (lines : list (list A)) : forall l,
  (length l <= m)%nat ->
  foldl seq_append (PDeque (Some m) l) lines
  = PDeque (Some m) (drop (length (l ++ lines) - m) (l ++ lines)).
Proof.
  induction lines as [|x lines IH]; intros l Hl.
  - simpl. rewrite app_nil_r. by replace (length l - m)%nat with 0%nat by lia.
  - cbn [foldl]. rewrite append_bounded by done.
    rewrite IH by (rewrite length_drop; lia).
    f_equal. rewrite last_of_last. by rewrite <- !app_assoc.
Qed.

(** X11: a writer made with the [list] type gets a new, empty list of
    its own: every [write] returns the length of its chunk, and after
    [writelines(lines)] the list holds exactly [lines], in order, the
    position is their total length, and no other object has changed. *)
Theorem SeqWriter_list_collects (H : heap A) (lines : list (list A)) (chunk : list A) :
  fst (fst (write (fst (__init__ (AType TList) H)) chunk (snd (__init__ (AType TList) H))))
    = inr (Z.of_nat (length chunk))
  /\ exists H2 : heap A,
       writelines (fst (__init__ (AType TList) H)) lines (snd (__init__ (AType TList) H))
         = (None, {| data := Some (next_ref H); pos := total lines; closed := false |}, H2)
       /\ objs H2 !! next_ref H = Some (PList lines)
       /\ (forall r, r <> next_ref H -> objs H2 !! r = objs H !! r).
Proof.
  split.
  - unfold write. simpl. by rewrite lookup_insert_eq.
  - eexists. split; [|split].
    + erewrite writelines_effect; [|reflexivity|reflexivity|simpl; apply lookup_insert_eq].
      simpl. reflexivity.
    + simpl. rewrite lookup_insert_eq. by rewrite foldl_append_list.
    + intros r Hr. simpl. by rewrite !lookup_insert_ne.
Qed.

(** X12: over a deque with [maxlen = m] that the caller passed in, the
    sequence keeps only the last [m] chunks of what it held and what was
    written, while the position counts everything written: it is the total
    amount written, not the amount of data in the sequence. *)
Theorem SeqWriter_deque_keeps_last (H : heap A) (ref : Z) (m : nat)
    (l lines : list (list A)) :
  objs H !! ref = Some (PDeque (Some m) l) ->
  (length l <= m)%nat ->
  exists (self' : t) (H2 : heap A),
    writelines (fst (__init__ (AInstance ref) H)) lines (snd (__init__ (AInstance ref) H))
      = (None, self', H2)
    /\ objs H2 !! ref
       = Some (PDeque (Some m) (drop (length (l ++ lines) - m) (l ++ lines)))
    /\ (length (drop (length (l ++ lines) - m) (l ++ lines)) <= m)%nat
    /\ tell self' = total lines.
Proof.
  intros Ho Hl. eexists _, _. split; [|split; [|split]].
  - by erewrite writelines_effect.
  - simpl. rewrite lookup_insert_eq. by rewrite foldl_append_bounded.
  - rewrite length_drop. lia.
  - reflexivity.
Qed.

(** X13: a writer made over an instance shares it with the caller: what
    is written is appended to the caller's list. [close()] only drops the
    writer's reference, so the list keeps everything. After [close()] a
    [write] raises AttributeError (from [append] on [None]) and the
    inherited [writelines] raises ValueError (the file is closed) before
    it writes anything; neither changes the list or the position, which
    [tell()] still reports. *)
Theorem SeqWriter_shares_and_close_keeps (H : heap A) (ref : Z)
    (l lines more : list (list A)) (chunk : list A) :
  objs H !! ref = Some (PList l) ->
  exists (self' : t) (H2 : heap A),
    writelines (fst (__init__ (AInstance ref) H)) lines (snd (__init__ (AInstance ref) H))
      = (None, self', H2)
    /\ objs H2 !! ref = Some (PList (l ++ lines))
    /\ (forall r, r <> ref -> objs H2 !! r = objs H !! r)
    /\ write (close self') chunk H2 = (inl RAttributeError, close self', H2)
    /\ writelines (close self') more H2 = (Some RValueError, close self', H2)
    /\ tell (close self') = total lines.
Proof.
  intros Ho. eexists _, _. split; [|split; [|split; [|split; [|split]]]].
  - by erewrite writelines_effect.
  - simpl. rewrite lookup_insert_eq. by rewrite foldl_append_list.
  - intros r Hr. simpl. by rewrite lookup_insert_ne.
  - reflexivity.
  - reflexivity.
  - reflexivity.
Qed.

End SeqWriterFacts.

Lemma SeqWriter_deque_keeps_last_witness :
  exists (self' : SeqWriter.t) (H2 : SeqWriter.heap byte),
    SeqWriter.writelines (fst (SeqWriter.__init__ (SeqWriter.AInstance 7) demo_heap))
        demo_chars (snd (SeqWriter.__init__ (SeqWriter.AInstance 7) demo_heap))
      = (None, self', H2)
    /\ SeqWriter.objs H2 !! 7 = Some (SeqWriter.PDeque (Some 2%nat) [[x6c]; [x64]])
    /\ (length [[x6c]; [x64]] <= 2)%nat
    /\ SeqWriter.tell self' = 11.
Proof.
  apply (SeqWriter_deque_keeps_last demo_heap 7 2 [] demo_chars);
    [vm_compute; reflexivity | simpl; lia].
Defined.

Lemma SeqWriter_shares_and_close_keeps_witness :
  exists (self' : SeqWriter.t) (H2 : SeqWriter.heap byte),
    SeqWriter.writelines (fst (SeqWriter.__init__ (SeqWriter.AInstance 5) demo_heap))
        [[x61]; [x62; x63]] (snd (SeqWriter.__init__ (SeqWriter.AInstance 5) demo_heap))
      = (None, self', H2)
    /\ SeqWriter.objs H2 !! 5 = Some (SeqWriter.PList [[x68; x69]; [x61]; [x62; x63]])
    /\ (forall r, r <> 5 -> SeqWriter.objs H2 !! r = SeqWriter.objs demo_heap !! r)
    /\ SeqWriter.write (SeqWriter.close self') [x64] H2
       = (inl SeqWriter.RAttributeError, SeqWriter.close self', H2)
    /\ SeqWriter.writelines (SeqWriter.close self') [[x65]] H2
       = (Some SeqWriter.RValueError, SeqWriter.close self', H2)
    /\ SeqWriter.tell (SeqWriter.close self') = 3.
Proof.
  apply (SeqWriter_shares_and_close_keeps demo_heap 5 [[x68; x69]] [[x61]; [x62; x63]]
           [[x65]] [x64]).
  vm_compute. reflexivity.
Defined.


(** * More about fdwrap.py *)

Section BridgeMore.
Context {P : platform}.
Import Runtime System FDWrap Inv.

Lemma init_descriptors (fobj : Z) (mode : string) (w : world P) (self : t) (w' : world P) :
  __init__ fobj mode w = Done self w' ->
  fdt w' !! next_fd w = Some (next_id w, RdEnd)
  /\ fdt w' !! (next_fd w + 1) = Some (next_id w, WrEnd).
Proof.
  unfold __init__. simpl.
  destruct (str_contains "r" mode).
  - destruct (os_fdopen (next_fd w) mode _) as [f w2| |] eqn:E1; simpl; try discriminate.
    destruct (os_fdopen (next_fd w + 1) "wb" w2) as [g w3| |] eqn:E2; simpl; try discriminate.
    apply os_fdopen_done in E1 as (_ & -> & ->).
    apply os_fdopen_done in E2 as (_ & -> & ->).
    unfold Forwarder.start. simpl. intros [= <- <-]. simpl. split; look.
  - destruct (os_fdopen (next_fd w + 1) mode _) as [f w2| |] eqn:E1; simpl; try discriminate.
    destruct (os_fdopen (next_fd w) "rb" w2) as [g w3| |] eqn:E2; simpl; try discriminate.
    apply os_fdopen_done in E1 as (_ & -> & ->).
    apply os_fdopen_done in E2 as (_ & -> & ->).
    unfold Forwarder.start. simpl. intros [= <- <-]. simpl. split; look.
Qed.

(** X14: right after a successful construction [fileno()] returns, and
    changes nothing: in read mode it is the descriptor of the read end of
    the new pipe, in write mode the descriptor of its write end. *)
Theorem fileno_is_exposed_end (fobj : Z) (mode : string) (w : world P) (self : t)
    (w' : world P) :
  __init__ fobj mode w = Done self w' ->
  fileno self w'
    = Done (if str_contains "r" mode then next_fd w else next_fd w + 1) w'
  /\ fdt w' !! (if str_contains "r" mode then next_fd w else next_fd w + 1)
     = Some (next_id w, if str_contains "r" mode then RdEnd else WrEnd).
Proof.
  intros Hinit.
  destruct (init_orig_and_file _ _ _ _ _ Hinit) as [_ Hf].
  destruct (init_descriptors _ _ _ _ _ Hinit) as [Hr Hw].
  split.
  - unfold fileno, file_fileno. by rewrite Hf.
  - by destruct (str_contains "r" mode).
Qed.

Lemma fileno_closed (self : t) (w : world P) :
  file_closed (file self) w = Some true -> fileno self w = Fail ValueError w.
Proof.
  unfold file_closed, fileno, file_fileno.
  destruct (files w !! file self) as [fo|]; [|discriminate].
  simpl. by intros [= ->].
Qed.

(** A file object that is closed stays closed whatever the caller and the
    rest of the system do. *)
Lemma act_keeps_closed (self : t) (a : action) (f : Z) (w w' : world P) :
  act self a w = Some w' ->
  file_closed f w = Some true -> file_closed f w' = Some true.
Proof.
  destruct a as [ev| | | | | |bg]; simpl.
  - intros H. apply occur_quiet in H as [_ Hm]. apply Hm.
  - by intros [= <-].
  - intros H. apply file_close_effect in H as (_ & _ & _ & _ & _ & _ & _ & Hm). apply Hm.
  - unfold fileno, file_fileno. destruct (files w !! file self) as [fo|]; [|discriminate].
    destruct (f_closed fo); by intros [= <-].
  - unfold detach, Forwarder.stop.
    destruct (fwds w !! _forward self) as [F|]; [|discriminate].
    destruct (state F); simpl; by intros [= <-].
  - unfold close, detach, Forwarder.stop.
    destruct (fwds w !! _forward self) as [F|]; [|discriminate].
    assert (Hsc : forall w1 w2 : world P, files w1 = files w ->
              settle (stream_close Main (_orig self) w1) = Some w2 ->
              file_closed f w = Some true -> file_closed f w2 = Some true).
    { intros w1 w2 Hf1 H Hc. apply stream_close_effect in H as (_ & Hf2 & _).
      unfold file_closed in *. by rewrite Hf2, Hf1. }
    destruct (state F); simpl; by apply Hsc.
  - unfold join.
    destruct (file_close Main (file self) w) as [[] wa|e wa|] eqn:Ec; simpl; try discriminate.
    + assert (Hs : settle (file_close Main (file self) w) = Some wa) by (by rewrite Ec).
      apply file_close_effect in Hs as (_ & _ & _ & _ & _ & _ & _ & Hm).
      destruct (Forwarder.join bg (_forward self) wa) as [r w2|e w2|] eqn:Ej; simpl;
        try discriminate.
      * intros [= <-] Hc. apply forwarder_join_done in Ej as (_ & _ & Hq).
        apply Hq. simpl. unfold file_closed in *. simpl. by apply Hm.
      * by destruct (forwarder_join_no_fail _ _ _ _ _ Ej).
    + intros [= <-].
      assert (Hs : settle (file_close Main (file self) w) = Some wa) by (by rewrite Ec).
      apply file_close_effect in Hs as (_ & _ & _ & _ & _ & _ & _ & Hm). apply Hm.
Qed.

Lemma session_keeps_closed (self : t) (acts : list action) (f : Z) (w w' : world P) :
  session self acts w = Some w' ->
  file_closed f w = Some true -> file_closed f w' = Some true.
Proof.
  revert w. induction acts as [|a acts IH]; simpl; intros w.
  - by intros [= <-].
  - destruct (act self a w) as [w1|] eqn:E; [|discriminate].
    intros H Hc. apply (IH _ H). by apply (act_keeps_closed self a f w).
Qed.

(** X15: once the scoped exit has run, [fileno()] raises ValueError, and
    keeps doing so whatever the caller calls on the bridge and whatever
    the Forwarder and other processes do afterwards: the exposed file is
    never reopened. *)
Theorem fileno_after_exit_raises (self : t) (w w1 : world P) (acts : list action)
    (w2 : world P) :
  settle (__exit__ self w) = Some w1 ->
  session self acts w1 = Some w2 ->
  fileno self w1 = Fail ValueError w1
  /\ fileno self w2 = Fail ValueError w2.
Proof.
  intros Hexit Hsess.
  apply file_close_effect in Hexit as (_ & _ & _ & _ & _ & Hc & _ & _).
  split; apply fileno_closed; [done|].
  by apply (session_keeps_closed self acts _ w1).
Qed.

(** X16: the scoped exit on an open exposed file really closes the
    descriptor: it leaves the process's descriptor table, so nothing can
    be written through it from this process any more; a second exit only
    repeats the call on the file object; and when it was the write end,
    no other process holds a copy and the pipe is drained, a read of the
    pipe sees end-of-data instead of blocking. *)
Theorem exit_releases_descriptor (self : t) (w : world P) (fo : pyfile) (p : Z)
    (e : pend) (q : pipe) :
  files w !! file self = Some fo ->
  f_closed fo = false ->
  fdt w !! f_fd fo = Some (p, e) ->
  pipes w !! p = Some q ->
  exists w' : world P,
    __exit__ self w = Done tt w'
    /\ fdt w' !! f_fd fo = None
    /\ pipes w' !! p = Some (set_local q e false)
    /\ (forall c, Forwarder.occur (EvWrite (f_fd fo) c) w' = None)
    /\ __exit__ self w' = Done tt (record Main (LFileClose (file self)) w')
    /\ (e = WrEnd -> p_ext_w q = 0%nat -> p_buf q = [] ->
        forall n, pipe_pull p n w' = Done [] w').
Proof.
  intros Hf Hc Hfd Hq.
  eexists. split.
  { unfold __exit__, file_close. rewrite Hf, Hc. unfold os_close. simpl.
    rewrite Hfd. reflexivity. }
  simpl. split; [apply lookup_delete_eq|].
  split; [by rewrite lookup_alter_eq, Hq|].
  split; [intros c; simpl; by rewrite lookup_delete_eq|].
  split.
  { unfold __exit__, file_close. simpl. rewrite lookup_insert_eq. reflexivity. }
  intros -> Hext Hbuf n. unfold pipe_pull. simpl.
  rewrite lookup_alter_eq, Hq. simpl. rewrite Hbuf.
  unfold writers_open. simpl. by rewrite Hext.
Qed.

(** X17: [close()] is [detach()] and then [close()] on the object that
    [detach()] returned, the wrapped one. Whatever the Forwarder's [stop]
    did before it returned, [close()] then makes exactly one more call,
    which closes the wrapped object: against the world that [stop] left,
    the file objects (the exposed one among them), the descriptors, the
    pipes, the forwarders and every other stream object are unchanged. *)
Theorem close_stops_then_closes_object (self : t) (w w1 : world P) :
  Forwarder.stop (_forward self) w = Done tt w1 ->
  is_Some (streams w1 !! _orig self) ->
  exists w' : world P,
    close self w = Done tt w'
    /\ detach self w = Done (_orig self) w1
    /\ log w' = log w1 ++ [(Main, LStreamClose (_orig self))]
    /\ stream_closed (_orig self) w' = Some true
    /\ (forall o, o <> _orig self -> streams w' !! o = streams w1 !! o)
    /\ files w' = files w1 /\ fdt w' = fdt w1 /\ pipes w' = pipes w1
    /\ fwds w' = fwds w1.
Proof.
  intros Hs [u Hu].
  unfold close, detach. rewrite Hs. simpl.
  unfold stream_close. rewrite Hu.
  eexists. split; [reflexivity|]. split; [reflexivity|]. simpl.
  unfold stream_closed. simpl. rewrite lookup_insert_eq.
  split; [reflexivity|]. split; [reflexivity|].
  split; [intros o Ho; by rewrite lookup_insert_ne|]. auto.
Qed.

End BridgeMore.

Lemma fileno_is_exposed_end_witness :
  FDWrap.fileno demo_self demo_r0 = Done 3 demo_r0
  /\ fdt demo_r0 !! 3 = Some (1, RdEnd).
Proof.
  exact (fileno_is_exposed_end 0 "rb" demo_rboot demo_self demo_r0 demo_rinit).
Defined.

Lemma fileno_after_exit_raises_witness :
  FDWrap.fileno demo_self demo_x0 = Fail ValueError demo_x0
  /\ FDWrap.fileno demo_self demo_x1 = Fail ValueError demo_x1.
Proof.
  apply (fileno_after_exit_raises demo_self demo_w0 demo_x0 demo_xacts demo_x1);
    vm_compute; reflexivity.
Defined.

Lemma exit_releases_descriptor_witness :
  exists w' : world demo,
    FDWrap.__exit__ demo_self demo_w0 = Done tt w'
    /\ fdt w' !! 4 = None
    /\ pipes w' !! 1 = Some (Runtime.set_local demo_pipe WrEnd false)
    /\ (forall c, Forwarder.occur (EvWrite 4 c) w' = None)
    /\ FDWrap.__exit__ demo_self w'
       = Done tt (Runtime.record Main (LFileClose (FDWrap.file demo_self)) w')
    /\ (WrEnd = WrEnd -> p_ext_w demo_pipe = 0%nat -> p_buf demo_pipe = [] ->
        forall n, Runtime.pipe_pull 1 n w' = Done [] w').
Proof.
  apply (exit_releases_descriptor demo_self demo_w0
           {| f_fd := 4; f_mode := "wb"; f_closed := false |} 1 WrEnd demo_pipe).
  - vm_compute. reflexivity.
  - reflexivity.
  - vm_compute. reflexivity.
  - vm_compute. reflexivity.
Defined.

Lemma close_stops_then_closes_object_witness :
  exists w' : world demo,
    FDWrap.close demo_self demo_w0 = Done tt w'
    /\ FDWrap.detach demo_self demo_w0 = Done (FDWrap._orig demo_self) demo_s0
    /\ log w' = log demo_s0 ++ [(Main, LStreamClose (FDWrap._orig demo_self))]
    /\ System.stream_closed (FDWrap._orig demo_self) w' = Some true
    /\ (forall o, o <> FDWrap._orig demo_self -> streams w' !! o = streams demo_s0 !! o)
    /\ files w' = files demo_s0 /\ fdt w' = fdt demo_s0 /\ pipes w' = pipes demo_s0
    /\ fwds w' = fwds demo_s0.
Proof.
  apply (close_stops_then_closes_object demo_self demo_w0 demo_s0).
  - vm_compute. reflexivity.
  - vm_compute. eexists. reflexivity.
Defined.

